(** * Workspace file gateway: a shallow embedding of
    [handleWorkspaceHttpRequest] (gateway workspace HTTP handler) and of the
    pieces of Node.js it relies on ([path.join], UTF-8 and latin1 buffers,
    [decodeURIComponent], the synchronous [fs] calls). *)

From stdpp Require Import base gmap strings list.
From Stdlib Require Import ZArith.
From Stdlib Require Strings.String Strings.Ascii.

Local Open Scope Z_scope.

(* ------------------------------------------------------------------ *)
(** ** JavaScript strings *)

(** A JavaScript string is a sequence of UTF-16 code units. *)
Abbreviation jsstr := (list Z).

(** ASCII literals as JavaScript strings. *)
Definition js (s : string) : jsstr :=
  map (fun a => Z.of_nat (Ascii.nat_of_ascii a)) (String.list_ascii_of_string s).

Definition QUOTE : Z := 34.
Definition SLASH : Z := 47.
Definition CR : Z := 13.
Definition LF : Z := 10.

Fixpoint jseqb (a b : jsstr) : bool :=
  match a, b with
  | [], [] => true
  | x :: a', y :: b' => Z.eqb x y && jseqb a' b'
  | _, _ => false
  end.

(** [s.startsWith(p)] *)
Fixpoint is_prefix (p s : jsstr) : bool :=
  match p, s with
  | [], _ => true
  | a :: p', b :: s' => Z.eqb a b && is_prefix p' s'
  | _ :: _, [] => false
  end.

(** [s.includes(sub)] *)
Fixpoint includes (sub s : jsstr) : bool :=
  is_prefix sub s || match s with [] => false | _ :: s' => includes sub s' end.

(** [s.indexOf(sub)]: first position, or -1. *)
Fixpoint index_of_go (sub s : jsstr) (i : Z) : Z :=
  if is_prefix sub s then i
  else match s with [] => -1 | _ :: s' => index_of_go sub s' (i + 1) end.
Definition index_of (sub s : jsstr) : Z := index_of_go sub s 0.

(** [s.lastIndexOf(sub)]: last position, or -1. *)
Fixpoint last_index_of_go (sub s : jsstr) (i best : Z) : Z :=
  let best' := if is_prefix sub s then i else best in
  match s with [] => best' | _ :: s' => last_index_of_go sub s' (i + 1) best' end.
Definition last_index_of (sub s : jsstr) : Z := last_index_of_go sub s 0 (-1).

(** [s.slice(a, b)]: negative indices count from the end. *)
Definition rel_index (len k : Z) : Z :=
  if k <? 0 then Z.max (len + k) 0 else Z.min k len.
Definition slice (s : jsstr) (a b : Z) : jsstr :=
  let len := Z.of_nat (length s) in
  let from := rel_index len a in
  let to_ := rel_index len b in
  if from <? to_ then take (Z.to_nat (to_ - from)) (drop (Z.to_nat from) s) else [].

(** [s.split(sep)] for a non-empty separator: left to right, matches do
    not overlap; [skip] counts the characters of a match still to pass. *)
Fixpoint split_go (sep s : jsstr) (skip : nat) (cur : jsstr) : list jsstr :=
  match s with
  | [] => [rev cur]
  | c :: s' =>
      match skip with
      | S k => split_go sep s' k cur
      | O => if is_prefix sep s
             then rev cur :: split_go sep s' (pred (length sep)) []
             else split_go sep s' O (c :: cur)
      end
  end.
Definition split_str (sep s : jsstr) : list jsstr := split_go sep s O [].

(** [s.replace(/^\/+/, "")] *)
Fixpoint strip_leading_slashes (s : jsstr) : jsstr :=
  match s with
  | c :: s' => if Z.eqb c SLASH then strip_leading_slashes s' else s
  | [] => []
  end.

(** [s.replace(/^text\//, "")] *)
Definition strip_text_prefix (s : jsstr) : jsstr :=
  if is_prefix (js "text/") s then drop 5 s else s.

(* ------------------------------------------------------------------ *)
(** ** Node's [path] module (POSIX) *)

(** Split on one character, keeping empty fields ([s.split("/")]). *)
Fixpoint split_char (c : Z) (s : jsstr) : list jsstr :=
  match s with
  | [] => [[]]
  | x :: s' =>
      if Z.eqb x c then [] :: split_char c s'
      else match split_char c s' with
           | [] => [[x]]
           | seg :: rest => (x :: seg) :: rest
           end
  end.

Fixpoint join_segs (l : list jsstr) : jsstr :=
  match l with
  | [] => []
  | [x] => x
  | x :: l' => x ++ [SLASH] ++ join_segs l'
  end.

(** [normalizeString(path, allowAboveRoot)] of Node's [path] module, on
    segments: empty and "." segments vanish, ".." pops the previous segment
    unless that is itself ".." (or there is none), in which case it is kept
    only when [allowAboveRoot]. [stk] is the result so far, reversed. *)
Fixpoint norm_go (allow_above : bool) (segs stk : list jsstr) : list jsstr :=
  match segs with
  | [] => stk
  | seg :: rest =>
      if jseqb seg [] || jseqb seg (js ".") then norm_go allow_above rest stk
      else if jseqb seg (js "..") then
        match stk with
        | top :: stk' =>
            if jseqb top (js "..")
            then norm_go allow_above rest (js ".." :: stk)
            else norm_go allow_above rest stk'
        | [] => norm_go allow_above rest (if allow_above then [js ".."] else [])
        end
      else norm_go allow_above rest (seg :: stk)
  end.

Definition normalize_string (p : jsstr) (allow_above : bool) : jsstr :=
  join_segs (rev (norm_go allow_above (split_char SLASH p) [])).

(** [path.normalize] *)
Definition path_normalize (p : jsstr) : jsstr :=
  match p with
  | [] => js "."
  | c :: _ =>
      let is_abs := Z.eqb c SLASH in
      let trailing := match last p with Some l => Z.eqb l SLASH | None => false end in
      let r := normalize_string p (negb is_abs) in
      match r with
      | [] => if is_abs then [SLASH] else if trailing then js "./" else js "."
      | _ =>
          let r := if trailing then r ++ [SLASH] else r in
          if is_abs then SLASH :: r else r
      end
  end.

(** [path.join(a, b)]: empty arguments are skipped. *)
Definition path_join (a b : jsstr) : jsstr :=
  match a, b with
  | [], [] => js "."
  | [], _ => path_normalize b
  | _, [] => path_normalize a
  | _, _ => path_normalize (a ++ [SLASH] ++ b)
  end.

(* ------------------------------------------------------------------ *)
(** ** Buffers and encodings *)

(** Bytes are integers in [0, 255]. *)
Abbreviation bytes := (list Z).

(** [buf.toString("binary")] (latin1): each byte becomes the code unit of
    the same value. *)
Definition latin1_decode (b : bytes) : jsstr := map (fun x => x) b.

(** [Buffer.from(s, "binary")], as [fs.writeFileSync(p, s, "binary")] does:
    each code unit keeps its low byte. *)
Definition latin1_encode (s : jsstr) : bytes := map (fun c => Z.land c 255) s.

Definition REPLACEMENT : Z := 0xFFFD.

Definition utf16_of_cp (c : Z) : jsstr :=
  if c <? 0x10000 then [c]
  else let c' := c - 0x10000 in
       [0xD800 + Z.shiftr c' 10; 0xDC00 + Z.land c' 0x3FF].

(** First byte of a UTF-8 sequence (WHATWG UTF-8 decoder): either output
    at once, or the number of continuation bytes still needed, the code
    point bits so far and the admissible range of the next byte. *)
Definition lead_step (b : Z) : jsstr + (nat * Z * Z * Z) :=
  if b <=? 0x7F then inl [b]
  else if (0xC2 <=? b) && (b <=? 0xDF) then inr (1%nat, Z.land b 0x1F, 0x80, 0xBF)
  else if (0xE0 <=? b) && (b <=? 0xEF) then
    inr (2%nat, Z.land b 0xF, if Z.eqb b 0xE0 then 0xA0 else 0x80,
         if Z.eqb b 0xED then 0x9F else 0xBF)
  else if (0xF0 <=? b) && (b <=? 0xF4) then
    inr (3%nat, Z.land b 0x7, if Z.eqb b 0xF0 then 0x90 else 0x80,
         if Z.eqb b 0xF4 then 0x8F else 0xBF)
  else inl [REPLACEMENT].

(** The WHATWG UTF-8 decoder with replacement, as [buf.toString("utf8")]:
    an ill-formed byte ends the pending sequence with U+FFFD and is then
    processed again as a first byte. *)
Fixpoint utf8_go (bs : bytes) (need : nat) (cp lo hi : Z) : jsstr :=
  match bs with
  | [] => match need with O => [] | S _ => [REPLACEMENT] end
  | b :: bs' =>
      match need with
      | O =>
          match lead_step b with
          | inl out => out ++ utf8_go bs' O 0 0x80 0xBF
          | inr (n, c, l, h) => utf8_go bs' n c l h
          end
      | S k =>
          if (lo <=? b) && (b <=? hi) then
            let cp' := Z.lor (Z.shiftl cp 6) (Z.land b 0x3F) in
            match k with
            | O => utf16_of_cp cp' ++ utf8_go bs' O 0 0x80 0xBF
            | S _ => utf8_go bs' k cp' 0x80 0xBF
            end
          else
            REPLACEMENT ::
            match lead_step b with
            | inl out => out ++ utf8_go bs' O 0 0x80 0xBF
            | inr (n, c, l, h) => utf8_go bs' n c l h
            end
      end
  end.
Definition utf8_decode (bs : bytes) : jsstr := utf8_go bs O 0 0x80 0xBF.

(** Code points of a JavaScript string; a lone surrogate becomes U+FFFD. *)
Fixpoint cps_of_utf16 (s : jsstr) : list Z :=
  match s with
  | [] => []
  | u :: s' =>
      if (0xD800 <=? u) && (u <=? 0xDBFF) then
        match s' with
        | v :: s'' =>
            if (0xDC00 <=? v) && (v <=? 0xDFFF)
            then (0x10000 + Z.shiftl (u - 0xD800) 10 + (v - 0xDC00)) :: cps_of_utf16 s''
            else REPLACEMENT :: cps_of_utf16 s'
        | [] => [REPLACEMENT]
        end
      else if (0xDC00 <=? u) && (u <=? 0xDFFF) then REPLACEMENT :: cps_of_utf16 s'
      else u :: cps_of_utf16 s'
  end.

Definition utf8_of_cp (c : Z) : bytes :=
  if c <? 0x80 then [c]
  else if c <? 0x800 then
    [Z.lor 0xC0 (Z.shiftr c 6); Z.lor 0x80 (Z.land c 0x3F)]
  else if c <? 0x10000 then
    [Z.lor 0xE0 (Z.shiftr c 12); Z.lor 0x80 (Z.land (Z.shiftr c 6) 0x3F);
     Z.lor 0x80 (Z.land c 0x3F)]
  else
    [Z.lor 0xF0 (Z.shiftr c 18); Z.lor 0x80 (Z.land (Z.shiftr c 12) 0x3F);
     Z.lor 0x80 (Z.land (Z.shiftr c 6) 0x3F); Z.lor 0x80 (Z.land c 0x3F)].

(** [Buffer.from(s, "utf8")] *)
Definition utf8_encode (s : jsstr) : bytes := flat_map utf8_of_cp (cps_of_utf16 s).

(** ** [decodeURIComponent] (ECMAScript [Decode] with an empty reserved
    set); [None] is a thrown [URIError]. *)

Definition hex_val (c : Z) : option Z :=
  if (48 <=? c) && (c <=? 57) then Some (c - 48)
  else if (65 <=? c) && (c <=? 70) then Some (c - 55)
  else if (97 <=? c) && (c <=? 102) then Some (c - 87)
  else None.

(** One [%XX] escape. *)
Definition pct_byte (s : jsstr) : option (Z * jsstr) :=
  match s with
  | 37 :: h1 :: h2 :: s' =>
      match hex_val h1, hex_val h2 with
      | Some a, Some b => Some (16 * a + b, s')
      | _, _ => None
      end
  | _ => None
  end.

(** [n] further escapes, each a continuation byte [10xxxxxx]. *)
Fixpoint pct_conts (n : nat) (s : jsstr) : option (bytes * jsstr) :=
  match n with
  | O => Some ([], s)
  | S n' =>
      match pct_byte s with
      | Some (b, s') =>
          if Z.eqb (Z.land b 0xC0) 0x80 then
            match pct_conts n' s' with
            | Some (bs, r) => Some (b :: bs, r)
            | None => None
            end
          else None
      | None => None
      end
  end.

(** The code point of a well-formed UTF-8 sequence (no overlong form, no
    surrogate, at most U+10FFFF). *)
Fixpoint utf8_cont_strict (bs : bytes) (n : nat) (c lo hi : Z) : option Z :=
  match bs, n with
  | [], O => Some c
  | b :: bs', S k =>
      if (lo <=? b) && (b <=? hi)
      then utf8_cont_strict bs' k (Z.lor (Z.shiftl c 6) (Z.land b 0x3F)) 0x80 0xBF
      else None
  | _, _ => None
  end.
Definition utf8_strict (bs : bytes) : option Z :=
  match bs with
  | b :: rest =>
      match lead_step b with
      | inr (n, c, l, h) => utf8_cont_strict rest n c l h
      | inl _ => None
      end
  | [] => None
  end.

Fixpoint decode_uri_go (fuel : nat) (s : jsstr) : option jsstr :=
  match fuel with
  | O => Some s
  | S fuel' =>
      match s with
      | [] => Some []
      | 37 :: _ =>
          match pct_byte s with
          | None => None
          | Some (b, s1) =>
              if b <? 0x80 then
                match decode_uri_go fuel' s1 with
                | Some r => Some (b :: r)
                | None => None
                end
              else
                let n := if Z.eqb (Z.land b 0xE0) 0xC0 then Some 1%nat
                         else if Z.eqb (Z.land b 0xF0) 0xE0 then Some 2%nat
                         else if Z.eqb (Z.land b 0xF8) 0xF0 then Some 3%nat
                         else None in
                match n with
                | None => None
                | Some n =>
                    match pct_conts n s1 with
                    | None => None
                    | Some (conts, s2) =>
                        match utf8_strict (b :: conts) with
                        | None => None
                        | Some v =>
                            match decode_uri_go fuel' s2 with
                            | Some r => Some (utf16_of_cp v ++ r)
                            | None => None
                            end
                        end
                    end
                end
          end
      | c :: s' =>
          match decode_uri_go fuel' s' with
          | Some r => Some (c :: r)
          | None => None
          end
      end
  end.
Definition decodeURIComponent (s : jsstr) : option jsstr := decode_uri_go (length s) s.

(* ------------------------------------------------------------------ *)
(** ** The file system and the synchronous [fs] calls *)

(** A node of the file tree. Timestamps are not modelled. *)
Inductive node :=
| File (data : bytes)
| Dir.

(** The file tree, keyed by the path segments from "/". *)
Abbreviation fstree := (gmap (list jsstr) node).

(** Paths handed to [fs] here are absolute and normalised by [path.join]:
    their key is the list of their non-empty segments. *)
Definition key_of (p : jsstr) : list jsstr :=
  filter (fun seg => seg <> []) (split_char SLASH p).

Inductive fs_error := ENOENT | ENOTDIR | EISDIR | EEXIST.

(** A thrown JavaScript exception. *)
Inductive exn :=
| FsError (e : fs_error)
| URIError.

(** Every [fs] call made, in order. *)
Inductive fsop :=
| OpExists (p : jsstr)
| OpMkdir (p : jsstr)
| OpReaddir (p : jsstr)
| OpStat (p : jsstr)
| OpRm (p : jsstr)
| OpUnlink (p : jsstr)
| OpReadFile (p : jsstr)
| OpWriteFile (p : jsstr)
| OpReadStream (p : jsstr).

Record world := { w_fs : fstree; w_log : list fsop }.

(** Statements that may throw and that act on the file system. *)
Definition M (A : Type) : Type := world -> (exn + A) * world.

Definition mret {A} (a : A) : M A := fun w => (inr a, w).
Definition mbind {A B} (m : M A) (f : A -> M B) : M B :=
  fun w => match m w with
           | (inl e, w') => (inl e, w')
           | (inr a, w') => f a w'
           end.
Definition throw {A} (e : exn) : M A := fun w => (inl e, w).
(** [try { m } catch (err) { h(err) }] *)
Definition try_catch {A} (m : M A) (h : exn -> M A) : M A :=
  fun w => match m w with
           | (inl e, w') => h e w'
           | r => r
           end.

Notation "'do' x <- m ; k" := (mbind m (fun x => k))
  (at level 200, x name, m at level 100, k at level 200).
Notation "'do_' m ; k" := (mbind m (fun _ => k))
  (at level 200, m at level 100, k at level 200).

Definition fs_call (o : fsop) : M fstree :=
  fun w => (inr (w_fs w), {| w_fs := w_fs w; w_log := w_log w ++ [o] |}).
Definition set_fs (m : fstree) : M unit :=
  fun w => (inr tt, {| w_fs := m; w_log := w_log w |}).
Definition fs_fail {A} (e : fs_error) : M A := throw (FsError e).

(** [fs.existsSync(p)] *)
Definition existsSync (p : jsstr) : M bool :=
  do m <- fs_call (OpExists p) ;
  mret (match m !! key_of p with Some _ => true | None => false end).

(** [fs.statSync(p)]: the node, whose size and kind the caller reads. *)
Definition statSync (p : jsstr) : M node :=
  do m <- fs_call (OpStat p) ;
  match m !! key_of p with Some n => mret n | None => fs_fail ENOENT end.

(** [fs.mkdirSync(p, { recursive: true })] *)
Fixpoint mkdir_p_go (done_ rest : list jsstr) (m : fstree) : fs_error + fstree :=
  match rest with
  | [] => inr m
  | s :: rest' =>
      let k := done_ ++ [s] in
      match m !! k with
      | Some Dir => mkdir_p_go k rest' m
      | Some (File _) => inl (match rest' with [] => EEXIST | _ => ENOTDIR end)
      | None => mkdir_p_go k rest' (<[k := Dir]> m)
      end
  end.
Definition mkdirSync_recursive (p : jsstr) : M unit :=
  do m <- fs_call (OpMkdir p) ;
  match mkdir_p_go [] (key_of p) m with
  | inl e => fs_fail e
  | inr m' => set_fs m'
  end.

(** The names of the immediate children of a directory, in the order the
    file system returns them. *)
Definition child_name (k : list jsstr) (kv : list jsstr * node) : option jsstr :=
  match kv.1 with
  | k' => if decide (length k' = S (length k) /\ k `prefix_of` k')
          then last k' else None
  end.
Definition children (m : fstree) (k : list jsstr) : list jsstr :=
  omap (child_name k) (map_to_list m).

(** [fs.readdirSync(p)] *)
Definition readdirSync (p : jsstr) : M (list jsstr) :=
  do m <- fs_call (OpReaddir p) ;
  match m !! key_of p with
  | Some Dir => mret (children m (key_of p))
  | Some (File _) => fs_fail ENOTDIR
  | None => fs_fail ENOENT
  end.

(** [fs.rmSync(p, { recursive: true })]: the node and everything below. *)
Definition remove_tree (k : list jsstr) (m : fstree) : fstree :=
  filter (fun kv : list jsstr * node => ~ k `prefix_of` kv.1) m.
Definition rmSync_recursive (p : jsstr) : M unit :=
  do m <- fs_call (OpRm p) ;
  match m !! key_of p with
  | Some _ => set_fs (remove_tree (key_of p) m)
  | None => fs_fail ENOENT
  end.

(** [fs.unlinkSync(p)] *)
Definition unlinkSync (p : jsstr) : M unit :=
  do m <- fs_call (OpUnlink p) ;
  match m !! key_of p with
  | Some (File _) => set_fs (delete (key_of p) m)
  | Some Dir => fs_fail EISDIR
  | None => fs_fail ENOENT
  end.

(** [fs.readFileSync(p)] *)
Definition readFileSync (p : jsstr) : M bytes :=
  do m <- fs_call (OpReadFile p) ;
  match m !! key_of p with
  | Some (File d) => mret d
  | Some Dir => fs_fail EISDIR
  | None => fs_fail ENOENT
  end.

(** [fs.writeFileSync(p, data)]: creates or truncates; the parent directory
    must exist. *)
Definition writeFileSync (p : jsstr) (data : bytes) : M unit :=
  do m <- fs_call (OpWriteFile p) ;
  let k := key_of p in
  match k with
  | [] => fs_fail EISDIR
  | _ =>
      match m !! k, m !! removelast k with
      | Some Dir, _ => fs_fail EISDIR
      | _, Some Dir => set_fs (<[k := File data]> m)
      | _, Some (File _) => fs_fail ENOTDIR
      | _, None => fs_fail ENOENT
      end
  end.

(** [fs.createReadStream(p)] read to its end; an error is emitted as the
    stream's ['error'] event. *)
Definition createReadStream (p : jsstr) : M bytes :=
  do m <- fs_call (OpReadStream p) ;
  match m !! key_of p with
  | Some (File d) => mret d
  | Some Dir => fs_fail EISDIR
  | None => fs_fail ENOENT
  end.

Fixpoint mapM {A B} (f : A -> M B) (l : list A) : M (list B) :=
  match l with
  | [] => mret []
  | x :: l' => do y <- f x ; do ys <- mapM f l' ; mret (y :: ys)
  end.

Fixpoint forM_ {A} (l : list A) (f : A -> M unit) : M unit :=
  match l with
  | [] => mret tt
  | x :: l' => do_ f x ; forM_ l' f
  end.

(* ------------------------------------------------------------------ *)
(** ** HTTP requests and responses *)

(** The request as the handler reads it: the method, the pathname of the
    parsed URL (still percent-encoded), the decoded query parameters, the
    [content-type] header and the body as the chunks of its ['data']
    events. *)
Record request := {
  method : jsstr;
  pathname : jsstr;
  query : list (jsstr * jsstr);
  content_type : option jsstr;
  chunks : list bytes
}.

(** [url.searchParams.get(name)] *)
Definition search_param (req : request) (name : jsstr) : option jsstr :=
  match list_find (fun kv => kv.1 = name) (query req) with
  | Some (_, kv) => Some kv.2
  | None => None
  end.

Record file_entry := { fe_name : jsstr; fe_size : Z; fe_isDirectory : bool }.

Inductive json :=
| JOk                           (* { ok: true } *)
| JError (msg : jsstr)          (* { error: msg } *)
| JFiles (l : list file_entry).

Inductive resp_body :=
| BJson (j : json)
| BText (t : jsstr)
| BBytes (b : bytes)
| BUnauthorized.

Record response := {
  status : Z;
  headers : list (jsstr * jsstr);
  body : resp_body
}.

(** The handler's result: [Handled r] is [return true] with [r] sent,
    [Unhandled] is [return false]. A thrown exception is the [inl] side of
    [M]: it leaves the handler (or the event listener that raised it)
    uncaught. *)
Inductive outcome :=
| Handled (r : response)
| Unhandled.

Definition sendJson (code : Z) (j : json) : outcome :=
  Handled {| status := code; headers := []; body := BJson j |}.
Definition sendText (code : Z) (t : jsstr) : outcome :=
  Handled {| status := code; headers := []; body := BText t |}.
Definition sendUnauthorized : outcome :=
  Handled {| status := 401; headers := []; body := BUnauthorized |}.
Definition forbidden : outcome := sendJson 403 (JError (js "Forbidden")).
(** [res.statusCode = 404; res.end("Not Found")] *)
Definition not_found : outcome := sendText 404 (js "Not Found").

Definition GET := js "GET".
Definition PUT := js "PUT".
Definition DELETE := js "DELETE".
Definition POST := js "POST".

(* ------------------------------------------------------------------ *)
(** ** The branches of [handleWorkspaceHttpRequest] *)

Definition dir_size : Z := 4096.

(** List files: [GET /api/workspace] *)
Definition list_op (workspaceDir : jsstr) : M outcome :=
  try_catch
    (do names <- readdirSync workspaceDir ;
     do files <- mapM (fun name =>
                   do st <- statSync (path_join workspaceDir name) ;
                   mret {| fe_name := name;
                           fe_size := match st with File d => Z.of_nat (length d)
                                                   | Dir => dir_size end;
                           fe_isDirectory := match st with Dir => true
                                                          | File _ => false end |})
                 names ;
     mret (sendJson 200 (JFiles (filter (fun f => ~ is_prefix (js ".") (fe_name f) = true)
                                        files))))
    (fun _ => mret (sendJson 500 (JError (js "Failed to list workspace")))).

(** Download: [GET /api/workspace/:filename]. The piped stream has no
    ['error'] listener, so a read error is thrown out of the handler. *)
Definition download_op (filePath fileName : jsstr) : M outcome :=
  do ex <- existsSync filePath ;
  if negb ex then mret not_found
  else
    do data <- createReadStream filePath ;
    mret (Handled {| status := 200;
                     headers := [(js "Content-Disposition",
                                  js "attachment; filename=" ++ [QUOTE] ++ fileName ++ [QUOTE]);
                                 (js "Content-Type", js "application/octet-stream")];
                     body := BBytes data |}).

(** Delete: [DELETE /api/workspace/:filename] *)
Definition delete_op (filePath : jsstr) : M outcome :=
  try_catch
    (do ex <- existsSync filePath ;
     do_ (if ex then
            do st <- statSync filePath ;
            match st with
            | Dir => rmSync_recursive filePath
            | File _ => unlinkSync filePath
            end
          else mret tt) ;
     mret (sendJson 200 JOk))
    (fun _ => mret (sendJson 500 (JError (js "Failed to delete")))).

(** Read Text: [GET /api/workspace/text/:filename] *)
Definition text_read_op (workspaceDir subPath : jsstr) : M outcome :=
  let actualFileName := strip_text_prefix subPath in
  let actualFilePath := path_join workspaceDir actualFileName in
  if negb (is_prefix workspaceDir actualFilePath) then mret forbidden
  else
    try_catch
      (do ex <- existsSync actualFilePath ;
       if negb ex then mret not_found
       else
         do content <- readFileSync actualFilePath ;
         mret (sendText 200 (utf8_decode content)))
      (fun _ => mret (sendJson 500 (JError (js "Failed to read text file")))).

(** Write Text: [PUT /api/workspace/text/:filename]. The [try] block only
    registers the ['data'] and ['end'] listeners, which cannot throw; the
    ['end'] listener runs after the [try] block has been left. *)
Definition text_write_op (workspaceDir subPath : jsstr) (cs : list bytes) : M outcome :=
  let actualFileName := strip_text_prefix subPath in
  let actualFilePath := path_join workspaceDir actualFileName in
  if negb (is_prefix workspaceDir actualFilePath) then mret forbidden
  else
    do caught <- try_catch (mret None)
                   (fun _ => mret (Some (sendJson 500 (JError (js "Failed to write text file"))))) ;
    match caught with
    | Some o => mret o
    | None =>
        (* req.on("data"): body += chunk, each Buffer chunk decoded as UTF-8 *)
        let body := foldl (fun acc chunk => acc ++ utf8_decode chunk) [] cs in
        (* req.on("end") *)
        do_ writeFileSync actualFilePath (utf8_encode body) ;
        mret (sendJson 200 JOk)
    end.

(** *** Upload: [POST /api/workspace/upload] *)

Definition filename_lit : jsstr := js "filename=" ++ [QUOTE].
Definition CRLF : jsstr := [CR; LF].
Definition CRLFCRLF : jsstr := [CR; LF; CR; LF].

(** Characters that [.] does not match in a JavaScript regular expression. *)
Definition is_line_terminator (c : Z) : bool :=
  Z.eqb c LF || Z.eqb c CR || Z.eqb c 0x2028 || Z.eqb c 0x2029.

(** The rest of a lazy [(.+?)] and its closing quote, after the first character. *)
Fixpoint close_quote (s : jsstr) : option jsstr :=
  match s with
  | [] => None
  | c :: s' =>
      if Z.eqb c QUOTE then Some []
      else if is_line_terminator c then None
      else option_map (cons c) (close_quote s')
  end.

(** The lazy group [(.+?)] and its closing quote at the start of [s]: at least one character. *)
Definition lazy_name (s : jsstr) : option jsstr :=
  match s with
  | c :: s' => if is_line_terminator c then None else option_map (cons c) (close_quote s')
  | [] => None
  end.

(** [s.match(/filename="(.+?)"/)]: group 1 of the leftmost match. *)
Fixpoint match_filename (s : jsstr) : option jsstr :=
  match s with
  | [] => None
  | _ :: s' =>
      if is_prefix filename_lit s then
        match lazy_name (drop (length filename_lit) s) with
        | Some n => Some n
        | None => match_filename s'
        end
      else match_filename s'
  end.

(** The loop body over one part: the target path and the content to write,
    or [None] when the part is skipped (no filename attribute) or dropped (the
    target fails the prefix check). *)
Definition part_target (workspaceDir part : jsstr) : option (jsstr * jsstr) :=
  if includes filename_lit part then
    let fileName := match match_filename part with
                    | Some n => n
                    | None => js "uploaded_file"
                    end in
    let contentStart := index_of CRLFCRLF part + 4 in
    let contentEnd := last_index_of CRLF part in
    let content := slice part contentStart contentEnd in
    let targetPath := path_join workspaceDir fileName in
    if is_prefix workspaceDir targetPath then Some (targetPath, content) else None
  else None.

Definition ingest_part (workspaceDir part : jsstr) : M unit :=
  match part_target workspaceDir part with
  | Some (targetPath, content) => writeFileSync targetPath (latin1_encode content)
  | None => mret tt
  end.

(** The ['end'] listener of the upload: [Buffer.concat] of the chunks, the
    latin1 ("binary") view, the split on [--boundary], one write per part. *)
Definition multipart_ingest (workspaceDir boundary : jsstr) (cs : list bytes) : M outcome :=
  let body := concat cs in
  let parts := split_str (js "--" ++ boundary) (latin1_decode body) in
  do_ forM_ parts (ingest_part workspaceDir) ;
  mret (sendJson 200 JOk).

(** [req.headers["content-type"]?.split("boundary=")[1]] *)
Definition boundary_of (ct : option jsstr) : option jsstr :=
  match ct with
  | Some c => split_str (js "boundary=") c !! 1%nat
  | None => None
  end.

Definition upload_op (workspaceDir : jsstr) (req : request) : M outcome :=
  match boundary_of (content_type req) with
  | None | Some [] => mret (sendJson 400 (JError (js "Missing boundary")))
  | Some boundary =>
      (* the try block registers the listeners, which cannot throw *)
      do caught <- try_catch (mret None)
                     (fun _ => mret (Some (sendJson 500 (JError (js "Upload failed"))))) ;
      match caught with
      | Some o => mret o
      | None => multipart_ingest workspaceDir boundary (chunks req)
      end
  end.

(** *** The handler *)

(** File operations on [/api/workspace/<subPath>]; [None] falls through. *)
Definition file_ops (rootWorkspaceDir workspaceDir subPath : jsstr) (req : request)
  : M (option outcome) :=
  match decodeURIComponent subPath with
  | None => throw URIError
  | Some fileName =>
      let filePath := path_join workspaceDir fileName in
      if negb (is_prefix rootWorkspaceDir filePath) then mret (Some forbidden)
      else
        let is_text := includes (js "/text/") (pathname req) in
        if jseqb (method req) GET && negb is_text then
          do o <- download_op filePath fileName ; mret (Some o)
        else if jseqb (method req) DELETE then
          do o <- delete_op filePath ; mret (Some o)
        else if jseqb (method req) GET && is_text then
          do o <- text_read_op workspaceDir subPath ; mret (Some o)
        else if jseqb (method req) PUT && is_text then
          do o <- text_write_op workspaceDir subPath (chunks req) ; mret (Some o)
        else mret None
  end.

Definition API : jsstr := js "/api/workspace".

(** [if (!fs.existsSync(root)) fs.mkdirSync(root, { recursive: true })] *)
Definition ensure_root (rootWorkspaceDir : jsstr) : M unit :=
  do ex <- existsSync rootWorkspaceDir ;
  if ex then mret tt else mkdirSync_recursive rootWorkspaceDir.

(** [handleWorkspaceHttpRequest(req, res, opts)]. The decision of the auth
    authority ([authorizeGatewayConnect]) is [authorized]; the agent's
    workspace root ([resolveAgentWorkspaceDir]) is [rootWorkspaceDir]. *)
Definition handleWorkspaceHttpRequest (authorized : bool) (rootWorkspaceDir : jsstr)
    (req : request) : M outcome :=
  if negb (is_prefix API (pathname req)) then mret Unhandled
  else if negb authorized then mret sendUnauthorized
  else
    do_ ensure_root rootWorkspaceDir ;
    let subPath := strip_leading_slashes (drop (length API) (pathname req)) in
    let queryPath := match search_param req (js "path") with Some q => q | None => [] end in
    let workspaceDir := path_join rootWorkspaceDir queryPath in
    if negb (is_prefix rootWorkspaceDir workspaceDir) then mret forbidden
    else if jseqb subPath [] && jseqb (method req) GET then list_op workspaceDir
    else
      do r <- (if jseqb subPath [] then mret None
               else file_ops rootWorkspaceDir workspaceDir subPath req) ;
      match r with
      | Some o => mret o
      | None =>
          if jseqb (pathname req) (js "/api/workspace/upload") && jseqb (method req) POST
          then upload_op workspaceDir req
          else mret Unhandled
      end.

(* ------------------------------------------------------------------ *)
(** ** Concrete file trees and requests *)

Definition fs_of_list (l : list (string * node)) : fstree :=
  list_to_map (map (fun pn => (key_of (js pn.1), pn.2)) l).

Definition run (authorized : bool) (root : jsstr) (req : request) (w : world)
  : (exn + outcome) * world :=
  handleWorkspaceHttpRequest authorized root req w.

Definition mk_request (m p : string) (q : list (string * string))
    (ct : option string) (cs : list bytes) : request :=
  {| method := js m; pathname := js p;
     query := map (fun kv => (js kv.1, js kv.2)) q;
     content_type := option_map js ct; chunks := cs |}.

Definition ROOT : jsstr := js "/data/ws".

(** A workspace [/data/ws] next to a sibling directory [/data/ws-evil]. *)
Definition sample_fs : fstree :=
  fs_of_list [("/", Dir); ("/data", Dir); ("/data/ws", Dir);
              ("/data/ws/docs", Dir); ("/data/ws/docs/a.txt", File [65]);
              ("/data/ws/my notes.txt", File [104; 105]);
              ("/data/ws-evil", Dir); ("/data/ws-evil/secret.txt", File [115])].

Definition sample_world : world := {| w_fs := sample_fs; w_log := [] |}.

(** The same machine before the workspace root was ever created. *)
Definition fresh_world : world :=
  {| w_fs := fs_of_list [("/", Dir); ("/data", Dir)]; w_log := [] |}.

(** Multipart bodies as a browser sends them: one file part with the file
    name [report.txt] under the boundary [X]. *)
Definition part_header : jsstr :=
  js "Content-Disposition: form-data; name=" ++ [QUOTE] ++ js "files" ++ [QUOTE] ++
  js "; filename=" ++ [QUOTE] ++ js "report.txt" ++ [QUOTE] ++ CRLF ++
  js "Content-Type: application/octet-stream".

Definition multipart_body (X content : jsstr) : bytes :=
  js "--" ++ X ++ CRLF ++ part_header ++ CRLFCRLF ++ content ++ CRLF ++
  js "--" ++ X ++ js "--" ++ CRLF.

(** What precedes the content in the part of [multipart_body]. *)
Definition part_prefix : jsstr := CRLF ++ part_header ++ CRLFCRLF.

(** A part with an arbitrary file name and content. *)
Definition file_part (X name content : jsstr) : bytes :=
  js "--" ++ X ++ CRLF ++
  js "Content-Disposition: form-data; name=" ++ [QUOTE] ++ js "files" ++ [QUOTE] ++
  js "; filename=" ++ [QUOTE] ++ name ++ [QUOTE] ++ CRLFCRLF ++ content ++ CRLF.

(** A plain form field: no file name. *)
Definition field_part (X name value : jsstr) : bytes :=
  js "--" ++ X ++ CRLF ++
  js "Content-Disposition: form-data; name=" ++ [QUOTE] ++ name ++ [QUOTE] ++
  CRLFCRLF ++ value ++ CRLF.

Definition closing (X : jsstr) : bytes := js "--" ++ X ++ js "--" ++ CRLF.

Definition upload_request (X : string) (body : bytes) : request :=
  mk_request "POST" "/api/workspace/upload" []
    (Some ("multipart/form-data; boundary=" ++ X)%string) [body].

(** A directory given by its segments, as [path.join] prints it. *)
Definition dir_path (segs : list jsstr) : jsstr := SLASH :: join_segs segs.

(** A directory entry name: non-empty, no separator, not "." or "..". *)
Definition plain_segb (s : jsstr) : bool :=
  negb (jseqb s []) && negb (existsb (Z.eqb SLASH) s) &&
  negb (jseqb s (js ".")) && negb (jseqb s (js "..")).

Definition keys_plain (m : fstree) : Prop :=
  map_Forall (fun k _ => Forall (fun s => plain_segb s = true) k) m.

(** An outcome whose status is 403. *)
Definition is403 (o : outcome) : Prop :=
  match o with Handled r => status r = 403 | Unhandled => False end.

(** A computation that answers 403 only with [forbidden] and, when it
    does, without any effect on the world. *)
Definition rejects_cleanly (op : M outcome) : Prop :=
  forall w o w', op w = (inr o, w') -> is403 o -> o = forbidden /\ w' = w.

(* ------------------------------------------------------------------ *)
(** ** Well-formed strings and [encodeURIComponent] *)

(** A Unicode scalar value: a code point that is not a surrogate. *)
Definition is_scalar (c : Z) : bool :=
  (0 <=? c) && (c <=? 0x10FFFF) && negb ((0xD800 <=? c) && (c <=? 0xDFFF)).

(** A well-formed JavaScript string: every surrogate is in a pair. *)
Fixpoint wf_utf16 (s : jsstr) : bool :=
  match s with
  | [] => true
  | u :: s' =>
      (0 <=? u) && (u <=? 0xFFFF) &&
      if (0xD800 <=? u) && (u <=? 0xDBFF) then
        match s' with
        | v :: s'' => (0xDC00 <=? v) && (v <=? 0xDFFF) && wf_utf16 s''
        | [] => false
        end
      else negb ((0xDC00 <=? u) && (u <=? 0xDFFF)) && wf_utf16 s'
  end.

(** Characters [encodeURIComponent] leaves as they are. *)
Definition uri_unreserved (c : Z) : bool :=
  ((65 <=? c) && (c <=? 90)) || ((97 <=? c) && (c <=? 122)) || ((48 <=? c) && (c <=? 57)) ||
  existsb (Z.eqb c) (js "-_.!~*'()").

Definition hex_digit (n : Z) : Z := if n <? 10 then 48 + n else 55 + n.

(** A byte as [%XX], upper-case hexadecimal. *)
Definition pct_enc (b : Z) : jsstr := [37; hex_digit (b / 16); hex_digit (b mod 16)].

(** [encodeURIComponent(s)] (ECMAScript [Encode] with the unreserved
    set); [None] is a thrown [URIError] (a lone surrogate). *)
Fixpoint encodeURIComponent (s : jsstr) : option jsstr :=
  match s with
  | [] => Some []
  | u :: s' =>
      if uri_unreserved u then option_map (cons u) (encodeURIComponent s')
      else if (0xDC00 <=? u) && (u <=? 0xDFFF) then None
      else if (0xD800 <=? u) && (u <=? 0xDBFF) then
        match s' with
        | v :: s'' =>
            if (0xDC00 <=? v) && (v <=? 0xDFFF) then
              option_map (app (flat_map pct_enc
                                 (utf8_of_cp ((u - 0xD800) * 0x400 + (v - 0xDC00) + 0x10000))))
                         (encodeURIComponent s'')
            else None
        | [] => None
        end
      else option_map (app (flat_map pct_enc (utf8_of_cp u))) (encodeURIComponent s')
  end.

(** What [encodeURIComponent] makes of one scalar value. *)
Definition enc_cp (c : Z) : jsstr :=
  if uri_unreserved c then [c] else flat_map pct_enc (utf8_of_cp c).

(** The number of continuation bytes a UTF-8 lead byte announces, as
    [decodeURIComponent] reads it. *)
Definition lead_len (b : Z) : option nat :=
  if Z.eqb (Z.land b 0xE0) 0xC0 then Some 1%nat
  else if Z.eqb (Z.land b 0xF0) 0xE0 then Some 2%nat
  else if Z.eqb (Z.land b 0xF8) 0xF0 then Some 3%nat
  else None.

(** The continuation bytes a pending sequence still admits all complete it
    to a Unicode scalar value: [k] more bytes after the next one, the next
    in [[lo, hi]], the later ones in [[0x80, 0xBF]]. *)
Fixpoint cont_ok (k : nat) (cp lo hi : Z) : Prop :=
  0x80 <= lo /\ hi <= 0xBF /\
  forall b, lo <= b <= hi ->
    match k with
    | O => is_scalar (cp * 64 + (b - 128)) = true
    | S k' => cont_ok k' (cp * 64 + (b - 128)) 0x80 0xBF
    end.

(* ------------------------------------------------------------------ *)
(** ** The Control UI's workspace controller (ui/controllers/workspace.ts) *)

(** The fields of the Control UI's app that its workspace controller
    reads; an unset one is the empty string. *)
Record OpenClawApp := {
  app_password : jsstr;
  settings_token : jsstr;
  app_username : jsstr;
  settings_username : jsstr;
  workspaceCurrentPath : jsstr
}.

(** [a || b] on strings *)
Definition js_or (a b : jsstr) : jsstr := match a with [] => b | _ => a end.

(** [addAuthParams(app, url)] on a URL without a query: the parameters it
    sets, in order. *)
Definition addAuthParams (a : OpenClawApp) : list (jsstr * jsstr) :=
  [(js "token", js_or (app_password a) (js_or (settings_token a) []))] ++
  (let username := js_or (app_username a) (js_or (settings_username a) []) in
   match username with [] => [] | _ => [(js "username", username)] end) ++
  match workspaceCurrentPath a with [] => [] | p => [(js "path", p)] end.

(** The query as the server reads it back: [url.toString()] serialises each
    name and value as UTF-8 ([application/x-www-form-urlencoded]) and the
    server's [url.searchParams] decodes them as UTF-8. *)
Definition query_on_wire (ps : list (jsstr * jsstr)) : list (jsstr * jsstr) :=
  map (fun kv => (utf8_decode (utf8_encode kv.1), utf8_decode (utf8_encode kv.2))) ps.

(** The pathname of [new URL("/" + dir.join("/") + "/" + e, base)] for a
    last segment [e] produced by [encodeURIComponent] (no "/", no "%2e"
    form): the URL parser resolves a "." or ".." segment. *)
Definition url_path (dir : list jsstr) (e : jsstr) : jsstr :=
  SLASH :: join_segs (if jseqb e (js ".") then dir ++ [[]]
                      else if jseqb e (js "..") then removelast dir ++ [[]]
                      else dir ++ [e]).

(** [app.workspaceCurrentPath ? `${app.workspaceCurrentPath}/${name}` : name] *)
Definition fullPath (a : OpenClawApp) (name : jsstr) : jsstr :=
  match workspaceCurrentPath a with [] => name | cur => cur ++ [SLASH] ++ name end.

(** The request the browser sends for a file of the current folder, on
    [/<dir>/encodeURIComponent(fullPath)] with [addAuthParams]; [None] is
    the [URIError] that [encodeURIComponent] throws on a lone surrogate. *)
Definition ui_file_request (a : OpenClawApp) (m : jsstr) (dir : list jsstr) (name : jsstr)
    (ct : option jsstr) (cs : list bytes) : option request :=
  match encodeURIComponent (fullPath a name) with
  | None => None
  | Some e => Some {| method := m; pathname := url_path dir e;
                      query := query_on_wire (addAuthParams a);
                      content_type := ct; chunks := cs |}
  end.

(** The segments of [/api/workspace] and [/api/workspace/text]. *)
Definition api_dir : list jsstr := [js "api"; js "workspace"].

Definition text_dir : list jsstr := [js "api"; js "workspace"; js "text"].

(** [downloadFromWorkspace(app, name)]: [window.open] of the URL. *)
Definition ui_download_request (a : OpenClawApp) (name : jsstr) : option request :=
  ui_file_request a GET api_dir name None [].

(** [deleteFromWorkspace(app, name)] *)
Definition ui_delete_request (a : OpenClawApp) (name : jsstr) : option request :=
  ui_file_request a DELETE api_dir name None [].

(** [editInWorkspace(app, file)] *)
Definition ui_edit_request (a : OpenClawApp) (name : jsstr) : option request :=
  ui_file_request a GET text_dir name None [].

(** [saveInWorkspace(app)]: [fetch] sends the editor's content as UTF-8
    ([text/plain;charset=UTF-8]); the server's ['data'] listener receives
    those bytes as the chunks [body], cut wherever the transport cuts them. *)
Definition ui_save_request (a : OpenClawApp) (name : jsstr) (body : list bytes) : option request :=
  ui_file_request a PUT text_dir name (Some (js "text/plain;charset=UTF-8")) body.

(** [loadWorkspace(app)]: the [GET /api/workspace] request. *)
Definition ui_list_request (a : OpenClawApp) : request :=
  {| method := GET; pathname := API; query := query_on_wire (addAuthParams a);
     content_type := None; chunks := [] |}.

(** [uploadToWorkspace(app, files)]: [POST] of the browser's multipart
    encoding of the files, its [content-type] [ct] and body [body]. *)
Definition ui_upload_request (a : OpenClawApp) (ct : option jsstr) (body : list bytes) : request :=
  {| method := POST; pathname := js "/api/workspace/upload"; query := query_on_wire (addAuthParams a);
     content_type := ct; chunks := body |}.

(** The app of the witnesses: a password, and the folder [docs] (or a
    folder [gone] that does not exist) opened in the workspace view. *)
Definition sample_app : OpenClawApp :=
  {| app_password := js "secret"; settings_token := []; app_username := [];
     settings_username := []; workspaceCurrentPath := js "docs" |}.

Definition sample_app_gone : OpenClawApp :=
  {| app_password := js "secret"; settings_token := []; app_username := [];
     settings_username := []; workspaceCurrentPath := js "gone" |}.

(* ------------------------------------------------------------------ *)
(** ** Lemmas on strings and paths *)

Lemma is_prefix_app (a b : jsstr) : is_prefix a (a ++ b) = true.
Proof. induction a as [|x a IH]; simpl; [reflexivity | now rewrite Z.eqb_refl, IH]. Qed.

Lemma split_char_not_nil (c : Z) (s : jsstr) : exists s0 rest, split_char c s = s0 :: rest.
Proof.
  induction s as [|x s IH]; simpl; [eauto|].
  destruct (Z.eqb x c); [eauto|]. destruct IH as (s0 & rest & ->). eauto.
Qed.

Lemma split_char_app (c : Z) (a b : jsstr) :
  split_char c (a ++ c :: b) = split_char c a ++ split_char c b.
Proof.
  induction a as [|x a IH]; simpl.
  - now rewrite Z.eqb_refl.
  - rewrite IH. destruct (Z.eqb x c); [reflexivity|].
    destruct (split_char_not_nil c a) as (s0 & rest & E). now rewrite E.
Qed.

Lemma split_char_sep_cons (c : Z) (s : jsstr) : split_char c (c :: s) = [] :: split_char c s.
Proof. simpl. now rewrite Z.eqb_refl. Qed.

Lemma split_char_no_sep (c : Z) (s : jsstr) :
  existsb (Z.eqb c) s = false -> split_char c s = [s].
Proof.
  induction s as [|x s IH]; simpl; [reflexivity|]. intros H.
  apply orb_false_iff in H as [H1 H2]. rewrite Z.eqb_sym, H1, IH by exact H2. reflexivity.
Qed.

Lemma plain_segb_spec (s : jsstr) :
  plain_segb s = true ->
  s <> [] /\ existsb (Z.eqb SLASH) s = false /\ jseqb s [] = false /\
  jseqb s (js ".") = false /\ jseqb s (js "..") = false.
Proof.
  unfold plain_segb. rewrite !andb_true_iff, !negb_true_iff. intros [[[H1 H2] H3] H4].
  repeat split; auto. intros ->. discriminate.
Qed.

Abbreviation plain_segs segs := (Forall (fun s => plain_segb s = true) segs).

Lemma split_join_plain (segs : list jsstr) :
  plain_segs segs -> segs <> [] -> split_char SLASH (join_segs segs) = segs.
Proof.
  induction segs as [|x segs IH]; intros Hp Hne; [congruence|].
  inversion Hp as [|? ? Hx Hrest]; subst.
  apply plain_segb_spec in Hx as (_ & Hx & _).
  destruct segs as [|y segs'].
  - simpl. now apply split_char_no_sep.
  - change (join_segs (x :: y :: segs')) with (x ++ SLASH :: join_segs (y :: segs')).
    rewrite split_char_app, split_char_no_sep by exact Hx.
    rewrite IH by (auto; discriminate). reflexivity.
Qed.

Lemma filter_nonempty_plain (segs : list jsstr) :
  plain_segs segs -> filter (fun seg : jsstr => seg <> []) segs = segs.
Proof.
  induction 1 as [|x segs Hx _ IH]; [reflexivity|].
  apply plain_segb_spec in Hx as (Hx & _).
  rewrite filter_cons_True by exact Hx. now rewrite IH.
Qed.

Lemma key_of_dir_path (segs : list jsstr) : plain_segs segs -> key_of (dir_path segs) = segs.
Proof.
  intros Hp. unfold key_of, dir_path. rewrite split_char_sep_cons.
  rewrite filter_cons_False by (intros H; apply H; reflexivity).
  destruct segs as [|x segs]; [reflexivity|].
  rewrite split_join_plain by (auto; discriminate). now apply filter_nonempty_plain.
Qed.

Lemma norm_go_plain (b : bool) (segs stk : list jsstr) :
  plain_segs segs -> norm_go b segs stk = rev segs ++ stk.
Proof.
  intros Hp. revert stk. induction Hp as [|x segs Hx _ IH]; intros stk; [reflexivity|].
  apply plain_segb_spec in Hx as (_ & _ & E1 & E2 & E3).
  simpl. rewrite E1, E2, E3. simpl. rewrite IH, <- app_assoc. reflexivity.
Qed.

Lemma norm_go_empty_seg (b : bool) (l stk : list jsstr) :
  norm_go b ([] :: l) stk = norm_go b l stk.
Proof. reflexivity. Qed.

Lemma join_segs_snoc (segs : list jsstr) (n : jsstr) :
  join_segs (segs ++ [n]) = match segs with [] => n | _ => join_segs segs ++ SLASH :: n end.
Proof.
  induction segs as [|x segs IH]; [reflexivity|].
  destruct segs as [|y segs']; [reflexivity|].
  change ((x :: y :: segs') ++ [n]) with (x :: ((y :: segs') ++ [n])).
  assert (E : join_segs (x :: ((y :: segs') ++ [n])) = x ++ SLASH :: join_segs ((y :: segs') ++ [n]))
    by reflexivity.
  rewrite E, IH. change (join_segs (x :: y :: segs')) with (x ++ SLASH :: join_segs (y :: segs')).
  now rewrite <- app_assoc.
Qed.

Lemma dir_path_snoc (segs : list jsstr) (n : jsstr) :
  dir_path (segs ++ [n]) = match segs with [] => SLASH :: n | _ => dir_path segs ++ SLASH :: n end.
Proof. unfold dir_path. rewrite join_segs_snoc. destruct segs; reflexivity. Qed.

Lemma path_join_dir_path (segs : list jsstr) (n : jsstr) :
  plain_segs segs -> plain_segb n = true ->
  path_join (dir_path segs) n = dir_path (segs ++ [n]).
Proof.
  intros Hp Hn. pose proof (plain_segb_spec n Hn) as (Hne & Hsl & _).
  destruct n as [|z n']; [congruence|].
  set (n := z :: n') in *.
  assert (Hsplit : split_char SLASH (dir_path segs ++ SLASH :: n) = [] :: segs ++ [n]
                   \/ (segs = [] /\ split_char SLASH (dir_path segs ++ SLASH :: n) = [[]; []; n])).
  { unfold dir_path. simpl app. rewrite split_char_sep_cons, split_char_app.
    rewrite (split_char_no_sep SLASH n) by exact Hsl.
    destruct segs as [|x segs]; [right; auto|left].
    rewrite split_join_plain by (auto; discriminate). reflexivity. }
  assert (Hnorm : norm_go false (split_char SLASH (dir_path segs ++ SLASH :: n)) []
                  = rev (segs ++ [n])).
  { assert (Hpn : plain_segs (segs ++ [n])) by (apply Forall_app; auto).
    destruct Hsplit as [-> | [-> ->]].
    - rewrite norm_go_empty_seg, norm_go_plain by exact Hpn. apply app_nil_r.
    - rewrite !norm_go_empty_seg, norm_go_plain by (constructor; auto). reflexivity. }
  assert (Htrail : match last (dir_path segs ++ SLASH :: n) with
                   | Some l => Z.eqb l SLASH | None => false end = false).
  { destruct (exists_last (l := n) ltac:(discriminate)) as (n0 & a & En).
    rewrite En in Hsl |- *. rewrite app_comm_cons, app_assoc, last_snoc.
    rewrite existsb_app in Hsl. apply orb_false_iff in Hsl as [_ Ha]. simpl in Ha.
    rewrite orb_false_r in Ha. now rewrite Z.eqb_sym. }
  change (path_join (dir_path segs) n) with (path_normalize (dir_path segs ++ SLASH :: n)).
  set (p := dir_path segs ++ SLASH :: n) in *.
  assert (Ep : p = SLASH :: (join_segs segs ++ SLASH :: n)) by reflexivity.
  unfold path_normalize. rewrite Ep at 1. cbv iota beta zeta. rewrite Z.eqb_refl.
  unfold normalize_string. change (negb true) with false.
  rewrite Hnorm, rev_involutive, Htrail, join_segs_snoc, dir_path_snoc.
  destruct segs as [|x segs]; [reflexivity|].
  destruct (join_segs (x :: segs) ++ SLASH :: n) as [|c r] eqn:E.
  - apply app_eq_nil in E as [_ E]. discriminate.
  - unfold dir_path. rewrite <- app_comm_cons, E. reflexivity.
Qed.

(* ------------------------------------------------------------------ *)
(** ** Lemmas on the file tree *)

Lemma child_name_Some (k k' : list jsstr) (v : node) (n : jsstr) :
  child_name k (k', v) = Some n <-> k' = k ++ [n].
Proof.
  unfold child_name; cbn [fst]. split.
  - case_decide as Hd; [|discriminate]. destruct Hd as [Hlen [r ->]].
    rewrite length_app in Hlen.
    destruct r as [|x [|y r]]; simpl in Hlen; try lia.
    rewrite last_snoc. intros [= ->]. reflexivity.
  - intros ->. rewrite decide_True.
    + apply last_snoc.
    + split; [rewrite length_app; simpl; lia | exists [n]; reflexivity].
Qed.

Lemma elem_of_children (m : fstree) (k : list jsstr) (n : jsstr) :
  n ∈ children m k <-> exists v, m !! (k ++ [n]) = Some v.
Proof.
  unfold children. rewrite list_elem_of_omap. split.
  - intros [[k' v] [Hin Hc]]. apply child_name_Some in Hc as ->.
    apply elem_of_map_to_list in Hin. eauto.
  - intros [v Hv]. exists (k ++ [n], v). split.
    + by apply elem_of_map_to_list.
    + by apply child_name_Some.
Qed.

Lemma NoDup_children (m : fstree) (k : list jsstr) : NoDup (children m k).
Proof.
  unfold children. generalize (NoDup_fst_map_to_list m). generalize (map_to_list m) as l.
  induction l as [|[k' v] l IH]; intros Hl; [constructor|].
  cbn [fmap list_fmap fst] in Hl. apply NoDup_cons in Hl as [Hn Hl].
  simpl. destruct (child_name k (k', v)) as [n|] eqn:E; [|auto].
  constructor; [|auto].
  intros Hin. apply list_elem_of_omap in Hin as [[k'' v'] [Hin' Hc]].
  apply child_name_Some in E, Hc. subst. apply Hn.
  apply list_elem_of_fmap. exists (k ++ [n], v'). auto.
Qed.

Lemma remove_tree_lookup_in (k k' : list jsstr) (m : fstree) :
  k `prefix_of` k' -> remove_tree k m !! k' = None.
Proof.
  intros Hp. unfold remove_tree. apply map_lookup_filter_None_2.
  right. intros x _ Hn. apply Hn. exact Hp.
Qed.

Lemma remove_tree_lookup_out (k k' : list jsstr) (m : fstree) :
  ~ k `prefix_of` k' -> remove_tree k m !! k' = m !! k'.
Proof.
  intros Hp. unfold remove_tree. rewrite map_lookup_filter.
  destruct (m !! k') as [v|] eqn:E; simpl; [|reflexivity].
  rewrite option_guard_True; [reflexivity | exact Hp].
Qed.

Lemma remove_tree_keys_plain (k : list jsstr) (m : fstree) :
  keys_plain m -> keys_plain (remove_tree k m).
Proof.
  intros Hm k' v Hv. apply map_lookup_filter_Some in Hv as [Hv _]. exact (Hm k' v Hv).
Qed.

Lemma mapM_total {A B} (f : A -> M B) (g : B -> A) (m : fstree) (l : list A) :
  (forall x, x ∈ l -> forall w, w_fs w = m ->
     exists y w', f x w = (inr y, w') /\ w_fs w' = m /\ g y = x) ->
  forall w, w_fs w = m ->
  exists ys w', mapM f l w = (inr ys, w') /\ w_fs w' = m /\ map g ys = l.
Proof.
  induction l as [|x l IH]; intros Hf w Hw.
  - exists [], w. auto.
  - destruct (Hf x ltac:(left) w Hw) as (y & w1 & E1 & Hw1 & Hg).
    destruct (IH (fun x' Hx' => Hf x' ltac:(by right)) w1 Hw1) as (ys & w2 & E2 & Hw2 & Hgs).
    exists (y :: ys), w2. cbn [mapM]. unfold mbind at 1. rewrite E1.
    unfold mbind. rewrite E2. simpl. rewrite Hg, Hgs. auto.
Qed.

Lemma delete_op_dir (p : jsstr) (w : world) :
  w_fs w !! key_of p = Some Dir ->
  fst (delete_op p w) = inr (sendJson 200 JOk) /\
  w_fs (snd (delete_op p w)) = remove_tree (key_of p) (w_fs w).
Proof.
  intros H.
  cbv [delete_op try_catch mbind existsSync statSync rmSync_recursive fs_call set_fs mret].
  cbn. rewrite H. cbn. rewrite H. cbn. rewrite H. auto.
Qed.


Lemma keys_plain_at (m : fstree) (k : list jsstr) (v : node) :
  keys_plain m -> m !! k = Some v -> plain_segs k.
Proof. intros Hm Hv. exact (Hm k v Hv). Qed.

Lemma list_op_dir (segs : list jsstr) (w : world) :
  keys_plain (w_fs w) -> w_fs w !! segs = Some Dir ->
  exists files,
    fst (list_op (dir_path segs) w) = inr (sendJson 200 (JFiles files)) /\
    (forall f, f ∈ files -> fe_name f ∈ children (w_fs w) segs).
Proof.
  intros Hm Hd.
  assert (Hs : plain_segs segs) by exact (keys_plain_at _ _ _ Hm Hd).
  set (m := w_fs w).
  set (w1 := {| w_fs := m; w_log := w_log w ++ [OpReaddir (dir_path segs)] |}).
  assert (E1 : readdirSync (dir_path segs) w = (inr (children m segs), w1)).
  { cbv [readdirSync mbind fs_call mret]. cbn [w_fs w_log].
    rewrite key_of_dir_path by exact Hs. unfold m. rewrite Hd. reflexivity. }
  set (f := fun name : jsstr =>
          do st <- statSync (path_join (dir_path segs) name) ;
          mret {| fe_name := name;
                  fe_size := match st with File d => Z.of_nat (length d)
                                          | Dir => dir_size end;
                  fe_isDirectory := match st with Dir => true
                                                 | File _ => false end |}).
  destruct (mapM_total f fe_name m (children m segs)) with (w := w1)
    as (ys & w2 & E2 & _ & Hg); [|reflexivity|].
  { intros x Hx w' Hw'. apply elem_of_children in Hx as [v Hv].
    assert (Hk : plain_segs (segs ++ [x])) by exact (keys_plain_at _ _ _ Hm Hv).
    apply Forall_app in Hk as Hk'. destruct Hk' as [_ Hx].
    apply Forall_inv in Hx.
    eexists _, _. split.
    - unfold f. cbv [statSync mbind fs_call mret]. cbn [w_fs w_log].
      rewrite path_join_dir_path, key_of_dir_path by assumption.
      rewrite Hw', Hv. reflexivity.
    - split; reflexivity. }
  eexists. split.
  - unfold list_op, try_catch. unfold mbind at 1. rewrite E1.
    unfold mbind at 1. fold f. rewrite E2. reflexivity.
  - intros g Hg'. apply list_elem_of_filter in Hg' as [_ Hg'].
    rewrite <- Hg. apply list_elem_of_fmap. eauto.
Qed.

(* ------------------------------------------------------------------ *)
(** ** Lemmas on the monad and on rejected requests *)

Lemma mbind_inr {A B} (m : M A) (k : A -> M B) (w : world) (y : B) (w' : world) :
  mbind m k w = (inr y, w') ->
  exists a w1, m w = (inr a, w1) /\ k a w1 = (inr y, w').
Proof.
  unfold mbind. intros H. destruct (m w) as [[e|a] w1]; [discriminate|eauto].
Qed.

Lemma mret_inr {A} (a b : A) (w w' : world) : mret a w = (inr b, w') -> b = a /\ w' = w.
Proof. unfold mret. intros [= -> ->]. auto. Qed.

Lemma throw_inr {A} (e : exn) (b : A) (w w' : world) : throw e w = (inr b, w') -> False.
Proof. discriminate. Qed.

Lemma try_catch_inr {A} (m : M A) (h : exn -> M A) (w : world) (b : A) (w' : world) :
  try_catch m h w = (inr b, w') ->
  m w = (inr b, w') \/ exists e w1, m w = (inl e, w1) /\ h e w1 = (inr b, w').
Proof.
  unfold try_catch. destruct (m w) as [[e|a] w1]; eauto.
Qed.

(** Inverts a successful run of a computation built from the monad. *)
Ltac minv :=
  repeat match goal with
  | H : mbind _ _ _ = (inr _, _) |- _ =>
      let a := fresh "a" in let w1 := fresh "w" in let Hm := fresh "Hm" in
      apply mbind_inr in H as (a & w1 & Hm & H)
  | H : mret _ _ = (inr _, _) |- _ =>
      apply mret_inr in H as [? ?]; simplify_eq
  | H : throw _ _ = (inr _, _) |- _ => apply throw_inr in H; contradiction
  | H : try_catch _ _ _ = (inr _, _) |- _ =>
      let e := fresh "e" in let w1 := fresh "w" in let Hm := fresh "Hm" in
      apply try_catch_inr in H as [H | (e & w1 & Hm & H)]
  | H : (match ?x with _ => _ end) _ = (inr _, _) |- _ =>
      destruct x; cbv beta iota zeta in H
  end.

Ltac leaf403 :=
  try match goal with Heq : Handled _ = _ |- _ => rewrite Heq in * end;
  match goal with
  | Hi : is403 _ |- _ =>
      first [ split; reflexivity
            | exfalso; cbv [is403 sendJson sendText sendUnauthorized not_found status] in Hi;
              first [ exact Hi | discriminate Hi ] ]
  end.

Lemma list_op_rejects_cleanly (wd : jsstr) : rejects_cleanly (list_op wd).
Proof. intros w o w' H Hi. unfold list_op in H. minv; leaf403. Qed.

Lemma download_op_rejects_cleanly (fp fn : jsstr) : rejects_cleanly (download_op fp fn).
Proof. intros w o w' H Hi. unfold download_op in H. minv; leaf403. Qed.

Lemma delete_op_rejects_cleanly (fp : jsstr) : rejects_cleanly (delete_op fp).
Proof. intros w o w' H Hi. unfold delete_op in H. minv; leaf403. Qed.

Lemma text_read_op_rejects_cleanly (wd sp : jsstr) : rejects_cleanly (text_read_op wd sp).
Proof. intros w o w' H Hi. unfold text_read_op in H. cbv zeta in H. minv; leaf403. Qed.

Lemma text_write_op_rejects_cleanly (wd sp : jsstr) (cs : list bytes) :
  rejects_cleanly (text_write_op wd sp cs).
Proof. intros w o w' H Hi. unfold text_write_op in H. cbv zeta in H. minv; leaf403. Qed.

Lemma upload_op_rejects_cleanly (wd : jsstr) (req : request) : rejects_cleanly (upload_op wd req).
Proof. intros w o w' H Hi. unfold upload_op, multipart_ingest in H. cbv zeta in H. minv; leaf403. Qed.


Lemma upload_op_no403 (wd : jsstr) (req : request) (w : world) (o : outcome) (w' : world) :
  upload_op wd req w = (inr o, w') -> ~ is403 o.
Proof.
  intros H Hi. unfold upload_op, multipart_ingest in H. cbv zeta in H. minv; leaf403.
Qed.

Lemma file_ops_rejects_cleanly (root wd sp : jsstr) (req : request) (w : world)
    (o : outcome) (w' : world) :
  file_ops root wd sp req w = (inr (Some o), w') -> is403 o -> o = forbidden /\ w' = w.
Proof.
  intros H Hi. unfold file_ops in H. cbv zeta in H. minv; try leaf403.
  - eapply download_op_rejects_cleanly; eassumption.
  - eapply delete_op_rejects_cleanly; eassumption.
  - eapply text_read_op_rejects_cleanly; eassumption.
  - eapply text_write_op_rejects_cleanly; eassumption.
Qed.

(* ------------------------------------------------------------------ *)
(** ** Lemmas on the multipart parser *)

Lemma mbind_ok {A B} (m : M A) (k : A -> M B) (w : world) (a : A) (w1 : world) :
  m w = (inr a, w1) -> mbind m k w = k a w1.
Proof. intros E. unfold mbind. rewrite E. reflexivity. Qed.

Lemma is_prefix_app_inv (a b s : jsstr) : is_prefix (a ++ b) s = true -> is_prefix a s = true.
Proof.
  revert s. induction a as [|x a IH]; intros s H; [reflexivity|].
  destruct s as [|y s]; [discriminate|]. simpl in *.
  apply andb_prop in H as [H1 H2]. rewrite H1, (IH s H2). reflexivity.
Qed.

Lemma is_prefix_app_r (p s t : jsstr) : is_prefix p s = true -> is_prefix p (s ++ t) = true.
Proof.
  revert s. induction p as [|x p IH]; intros s H; [reflexivity|].
  destruct s as [|y s]; [discriminate|]. simpl in *.
  apply andb_prop in H as [H1 H2]. rewrite H1, (IH s H2). reflexivity.
Qed.

(** A match of [sep] that would run into a character [sep] does not
    contain lies before it. *)
Lemma is_prefix_straddle (sep a b : jsstr) (c : Z) :
  ~ In c sep -> is_prefix sep (a ++ c :: b) = true -> is_prefix sep a = true.
Proof.
  revert a. induction sep as [|x sep IH]; intros a Hc H; [reflexivity|].
  destruct a as [|y a]; simpl in H; apply andb_prop in H as [H1 H2].
  - apply Z.eqb_eq in H1. exfalso. apply Hc. left. exact H1.
  - simpl. rewrite H1. apply IH; [intros Hi; apply Hc; right; exact Hi | exact H2].
Qed.

Lemma includes_drop (sub s : jsstr) (j : nat) :
  includes sub s = false -> is_prefix sub (drop j s) = false.
Proof.
  revert j. induction s as [|c s IH]; intros j H.
  - change (includes sub []) with (is_prefix sub [] || false) in H.
    rewrite orb_false_r in H. rewrite drop_nil. exact H.
  - change (includes sub (c :: s)) with (is_prefix sub (c :: s) || includes sub s) in H.
    apply orb_false_elim in H as [H1 H2].
    destruct j as [|j]; [exact H1 | apply IH, H2].
Qed.

Lemma includes_app_l (sub a b : jsstr) : includes sub a = true -> includes sub (a ++ b) = true.
Proof.
  induction a as [|c a IH]; intros H.
  - change (includes sub []) with (is_prefix sub [] || false) in H.
    rewrite orb_false_r in H. destruct sub; [destruct b; reflexivity | discriminate].
  - change (includes sub (c :: a)) with (is_prefix sub (c :: a) || includes sub a) in H.
    change (includes sub ((c :: a) ++ b))
      with (is_prefix sub (c :: a ++ b) || includes sub (a ++ b)).
    apply orb_true_iff in H as [H|H].
    + rewrite (is_prefix_app_r sub (c :: a) b H : is_prefix sub (c :: a ++ b) = true).
      reflexivity.
    + rewrite (IH H). apply orb_true_r.
Qed.

Lemma split_go_skip (sep w v cur : jsstr) :
  split_go sep (w ++ v) (length w) cur = split_go sep v 0 cur.
Proof. induction w as [|c w IH]; [reflexivity | exact IH]. Qed.

Lemma split_go_sep (sep v cur : jsstr) :
  sep <> [] -> split_go sep (sep ++ v) 0 cur = rev cur :: split_go sep v 0 [].
Proof.
  destruct sep as [|x sep']; [congruence|]. intros _.
  change (split_go (x :: sep') ((x :: sep') ++ v) 0 cur)
    with (if is_prefix (x :: sep') ((x :: sep') ++ v)
          then rev cur :: split_go (x :: sep') (sep' ++ v) (pred (length (x :: sep'))) []
          else split_go (x :: sep') (sep' ++ v) O (x :: cur)).
  rewrite is_prefix_app. cbn [length pred]. rewrite split_go_skip. reflexivity.
Qed.

Lemma split_go_free (sep u v cur : jsstr) :
  (forall i, (i < length u)%nat -> is_prefix sep (drop i (u ++ v)) = false) ->
  split_go sep (u ++ v) 0 cur = split_go sep v 0 (rev u ++ cur).
Proof.
  revert cur. induction u as [|c u IH]; intros cur H; [reflexivity|].
  change (split_go sep ((c :: u) ++ v) 0 cur)
    with (if is_prefix sep (c :: u ++ v)
          then rev cur :: split_go sep (u ++ v) (pred (length sep)) []
          else split_go sep (u ++ v) O (c :: cur)).
  replace (is_prefix sep (c :: u ++ v)) with false
    by (symmetry; exact (H 0%nat ltac:(simpl; lia))).
  rewrite IH.
  - simpl. rewrite <- app_assoc. reflexivity.
  - intros i Hi. exact (H (S i) ltac:(simpl; lia)).
Qed.

Lemma last_index_of_go_crlf (s : jsstr) (i best : Z) :
  last_index_of_go CRLF (s ++ CRLF) i best = i + Z.of_nat (length s).
Proof.
  revert i best. induction s as [|c s IH]; intros i best.
  - simpl. lia.
  - change (last_index_of_go CRLF ((c :: s) ++ CRLF) i best)
      with (last_index_of_go CRLF (s ++ CRLF) (i + 1)
              (if is_prefix CRLF (c :: s ++ CRLF) then i else best)).
    rewrite IH. simpl length. lia.
Qed.

Lemma slice_mid (a b c : jsstr) :
  slice (a ++ b ++ c) (Z.of_nat (length a)) (Z.of_nat (length a + length b)) = b.
Proof.
  unfold slice, rel_index. rewrite !length_app.
  rewrite (proj2 (Z.ltb_ge (Z.of_nat (length a)) 0)) by lia.
  rewrite (proj2 (Z.ltb_ge (Z.of_nat (length a + length b)) 0)) by lia.
  rewrite Z.min_l by lia. rewrite Z.min_l by lia.
  destruct (Z.of_nat (length a) <? Z.of_nat (length a + length b)) eqn:E.
  - rewrite Nat2Z.id.
    replace (Z.to_nat (Z.of_nat (length a + length b) - Z.of_nat (length a)))
      with (length b) by lia.
    rewrite drop_app_length, take_app_length. reflexivity.
  - apply Z.ltb_ge in E. destruct b; [reflexivity | simpl in E; lia].
Qed.

Lemma latin1_encode_bytes (content : bytes) :
  Forall (fun b => 0 <= b <= 255) content -> latin1_encode content = content.
Proof.
  induction 1 as [|x l Hx _ IH]; [reflexivity|].
  unfold latin1_encode in *. simpl. rewrite IH. f_equal.
  change 255 with (Z.ones 8). rewrite Z.land_ones by lia. apply Z.mod_small. lia.
Qed.

Lemma latin1_decode_id (b : bytes) : latin1_decode b = b.
Proof. apply map_id. Qed.

Lemma is_prefix_dir_path_snoc (segs : list jsstr) (n : jsstr) :
  is_prefix (dir_path segs) (dir_path (segs ++ [n])) = true.
Proof. rewrite dir_path_snoc. destruct segs; [reflexivity | apply is_prefix_app]. Qed.

Lemma writeFileSync_new (k : list jsstr) (d : bytes) (w : world) :
  plain_segs k -> k <> [] ->
  w_fs w !! k <> Some Dir -> w_fs w !! removelast k = Some Dir ->
  writeFileSync (dir_path k) d w =
    (inr tt, {| w_fs := <[k := File d]> (w_fs w);
                w_log := w_log w ++ [OpWriteFile (dir_path k)] |}).
Proof.
  intros Hp Hne Hk Hpar.
  cbv [writeFileSync mbind fs_call set_fs]. cbn [w_fs w_log].
  rewrite key_of_dir_path by exact Hp.
  destruct k as [|s k]; [congruence|]. cbv beta iota.
  rewrite Hpar.
  destruct (w_fs w !! (s :: k)) as [[dd|]|]; [reflexivity | congruence | reflexivity].
Qed.

Lemma part_prefix_no_dashes (rest : jsstr) (i : nat) :
  (i < length part_prefix)%nat -> is_prefix (js "--") (drop i (part_prefix ++ rest)) = false.
Proof.
  intros Hi.
  assert (Hall : forallb (fun j => negb (is_prefix (js "--") (drop j (part_prefix ++ rest))))
                   (seq 0 (length part_prefix)) = true) by (vm_compute; reflexivity).
  rewrite forallb_forall in Hall.
  apply negb_true_iff, Hall, in_seq. lia.
Qed.

Lemma part_prefix_filename : includes filename_lit part_prefix = true.
Proof. vm_compute. reflexivity. Qed.

Lemma part_prefix_match (rest : jsstr) :
  match_filename (part_prefix ++ rest) = Some (js "report.txt").
Proof. vm_compute. reflexivity. Qed.

Lemma part_prefix_index (rest : jsstr) :
  index_of CRLFCRLF (part_prefix ++ rest) + 4 = Z.of_nat (length part_prefix).
Proof. vm_compute. reflexivity. Qed.

Lemma part_target_report (segs : list jsstr) (content : jsstr) :
  plain_segs segs ->
  part_target (dir_path segs) (part_prefix ++ content ++ CRLF) =
    Some (dir_path (segs ++ [js "report.txt"]), content).
Proof.
  intros Hs. unfold part_target. cbv zeta.
  rewrite (includes_app_l filename_lit part_prefix (content ++ CRLF) part_prefix_filename).
  rewrite part_prefix_match, part_prefix_index.
  unfold last_index_of. rewrite app_assoc, last_index_of_go_crlf, Z.add_0_l, length_app.
  rewrite <- app_assoc, slice_mid.
  rewrite path_join_dir_path by (auto || reflexivity).
  rewrite is_prefix_dir_path_snoc. reflexivity.
Qed.

(** With a boundary free of CR and a content free of the delimiter, the
    body of [multipart_body] splits into an empty preamble, the one part,
    and the closing dashes. *)
Lemma multipart_parts (X content : jsstr) :
  X <> [] -> ~ In CR X -> includes (js "--" ++ X) content = false ->
  split_str (js "--" ++ X) (latin1_decode (multipart_body X content)) =
    [[]; part_prefix ++ content ++ CRLF; js "--" ++ CRLF].
Proof.
  intros Hne Hcr Hinc.
  assert (Hsep : js "--" ++ X = 45 :: 45 :: X) by reflexivity.
  assert (Hcr_sep : ~ In CR (js "--" ++ X)).
  { rewrite Hsep. intros [H|[H|H]]; [discriminate | discriminate | exact (Hcr H)]. }
  assert (Hbody : latin1_decode (multipart_body X content) =
                  (js "--" ++ X) ++ (part_prefix ++ content ++ CRLF) ++
                  ((js "--" ++ X) ++ js "--" ++ CRLF)).
  { rewrite latin1_decode_id. unfold multipart_body, part_prefix.
    rewrite <- !app_assoc. reflexivity. }
  rewrite Hbody. unfold split_str.
  rewrite split_go_sep by (rewrite Hsep; discriminate).
  rewrite split_go_free.
  - rewrite app_nil_r, split_go_sep by (rewrite Hsep; discriminate).
    rewrite rev_involutive. f_equal. f_equal.
    rewrite Hsep. destruct X as [|x X']; [congruence|].
    assert (Hx : (x =? 13) = false).
    { apply Z.eqb_neq. intros ->. apply Hcr. left. reflexivity. }
    change (js "--" ++ CRLF) with [45; 45; 13; 10]. simpl. rewrite Hx. reflexivity.
  - intros i Hi.
    replace ((part_prefix ++ content ++ CRLF) ++ (js "--" ++ X) ++ js "--" ++ CRLF)
      with ((part_prefix ++ content) ++ CR :: LF :: (js "--" ++ X) ++ js "--" ++ CRLF)
      by (rewrite <- !app_assoc; reflexivity).
    rewrite !length_app in Hi. change (length CRLF) with 2%nat in Hi.
    destruct (decide (i < length part_prefix + length content)%nat) as [Hlt|Hge].
    + rewrite drop_app_le by (rewrite length_app; lia).
      destruct (is_prefix (js "--" ++ X) _) eqn:Ep; [|reflexivity]. exfalso.
      apply is_prefix_straddle in Ep; [|exact Hcr_sep].
      destruct (decide (i < length part_prefix)%nat) as [Hp|Hp].
      * apply is_prefix_app_inv in Ep.
        rewrite part_prefix_no_dashes in Ep by exact Hp. discriminate.
      * rewrite drop_app_ge in Ep by lia.
        rewrite includes_drop in Ep by exact Hinc. discriminate.
    + rewrite drop_app_ge by (rewrite length_app; lia).
      rewrite length_app.
      assert (Hd : (i - (length part_prefix + length content) = 0)%nat \/
                   (i - (length part_prefix + length content) = 1)%nat) by lia.
      destruct Hd as [-> | ->]; rewrite Hsep; reflexivity.
Qed.

(* ------------------------------------------------------------------ *)
(** ** Lemmas on UTF-8, [encodeURIComponent] and the Control UI's requests *)

Lemma forall_range (P : Z -> bool) (n : nat) :
  forallb P (map Z.of_nat (seq 0 n)) = true -> forall x, 0 <= x < Z.of_nat n -> P x = true.
Proof.
  intros H x Hx. rewrite forallb_forall in H. apply H.
  apply in_map_iff. exists (Z.to_nat x). split; [lia|]. apply in_seq. lia.
Qed.

Lemma range_prop (P : Z -> Prop) `{forall x, Decision (P x)} (n : nat) :
  forallb (fun x => bool_decide (P x)) (map Z.of_nat (seq 0 n)) = true ->
  forall x, 0 <= x < Z.of_nat n -> P x.
Proof.
  intros Hall x Hx. apply (bool_decide_eq_true_1 (P x)).
  exact (forall_range (fun x => bool_decide (P x)) n Hall x Hx).
Qed.

(** A goal about a small integer [x], checked at every value of [x] in [0, n). *)
Ltac by_range x n :=
  let Hr := fresh in
  assert (Hr : 0 <= x < Z.of_nat n) by lia;
  repeat match goal with H : context [x] |- _ => tryif (constr_eq H Hr) then fail else revert H end;
  revert Hr; generalize x; clear;
  match goal with
  | |- forall y, 0 <= y < _ -> @?P y => apply (range_prop P n); vm_compute; reflexivity
  end.

Lemma lor_shiftl_small (a y : Z) :
  0 <= y < 64 -> Z.lor (Z.shiftl a 6) y = a * 64 + y.
Proof.
  intros Hy. rewrite Z.shiftl_mul_pow2 by lia. change (2 ^ 6) with 64.
  assert (Hd : Z.land (a * 64) y = 0).
  { apply Z.bits_inj'. intros m Hm. rewrite Z.land_spec, Z.bits_0.
    destruct (Z.lt_ge_cases m 6) as [Hl|Hl].
    - change 64 with (2 ^ 6). rewrite Z.mul_pow2_bits_low by lia. reflexivity.
    - rewrite (Z.bits_above_log2 y m); [apply andb_false_r|lia|].
      destruct (Z.eq_dec y 0) as [->|Hy0]; [simpl; lia|].
      assert (Z.log2 y < 6) by (apply Z.log2_lt_pow2; lia). lia. }
  rewrite <- Z.lxor_lor by exact Hd. rewrite <- Z.add_nocarry_lxor by exact Hd. reflexivity.
Qed.

Lemma cont_recon (a y : Z) :
  0 <= y < 64 -> Z.lor (Z.shiftl a 6) (Z.land (128 + y) 0x3F) = a * 64 + y.
Proof.
  intros Hy. assert (E : Z.land (128 + y) 0x3F = y) by by_range y 64%nat.
  rewrite E. now apply lor_shiftl_small.
Qed.

Lemma lor80 (y : Z) : 0 <= y < 64 -> Z.lor 0x80 y = 128 + y.
Proof. intros Hy. by_range y 64%nat. Qed.

Lemma lorC0 (y : Z) : 0 <= y < 32 -> Z.lor 0xC0 y = 192 + y.
Proof. intros Hy. by_range y 32%nat. Qed.

Lemma lorE0 (y : Z) : 0 <= y < 16 -> Z.lor 0xE0 y = 224 + y.
Proof. intros Hy. by_range y 16%nat. Qed.

Lemma lorF0 (y : Z) : 0 <= y < 8 -> Z.lor 0xF0 y = 240 + y.
Proof. intros Hy. by_range y 8%nat. Qed.

Lemma lead2 (x : Z) : 2 <= x < 32 -> lead_step (192 + x) = inr (1%nat, x, 0x80, 0xBF).
Proof. intros Hx. by_range x 32%nat. Qed.

Lemma lead3 (x : Z) : 0 <= x < 16 ->
  lead_step (224 + x) = inr (2%nat, x, if x =? 0 then 0xA0 else 0x80, if x =? 13 then 0x9F else 0xBF).
Proof. intros Hx. by_range x 16%nat. Qed.

Lemma lead4 (x : Z) : 0 <= x < 5 ->
  lead_step (240 + x) = inr (3%nat, x, if x =? 0 then 0x90 else 0x80, if x =? 4 then 0x8F else 0xBF).
Proof. intros Hx. by_range x 5%nat. Qed.

Ltac zdm := Z.div_mod_to_equations; lia.

Lemma utf8_of_cp_2 (c : Z) : 128 <= c < 2048 ->
  utf8_of_cp c = [192 + c / 64; 128 + c mod 64].
Proof.
  intros Hc. unfold utf8_of_cp.
  rewrite (proj2 (Z.ltb_ge c 128)), (proj2 (Z.ltb_lt c 2048)) by lia.
  change 0x3F with (Z.ones 6). rewrite Z.land_ones, Z.shiftr_div_pow2 by lia.
  change (2 ^ 6) with 64. rewrite lorC0, lor80 by zdm. reflexivity.
Qed.

Lemma utf8_of_cp_3 (c : Z) : 2048 <= c < 65536 ->
  utf8_of_cp c = [224 + c / 4096; 128 + (c / 64) mod 64; 128 + c mod 64].
Proof.
  intros Hc. unfold utf8_of_cp.
  rewrite (proj2 (Z.ltb_ge c 128)), (proj2 (Z.ltb_ge c 2048)), (proj2 (Z.ltb_lt c 65536)) by lia.
  change 0x3F with (Z.ones 6). rewrite !Z.land_ones, !Z.shiftr_div_pow2 by lia.
  change (2 ^ 6) with 64. change (2 ^ 12) with 4096.
  rewrite lorE0, !lor80 by zdm. reflexivity.
Qed.

Lemma utf8_of_cp_4 (c : Z) : 65536 <= c <= 0x10FFFF ->
  utf8_of_cp c = [240 + c / 262144; 128 + (c / 4096) mod 64; 128 + (c / 64) mod 64; 128 + c mod 64].
Proof.
  intros Hc. unfold utf8_of_cp.
  rewrite (proj2 (Z.ltb_ge c 128)), (proj2 (Z.ltb_ge c 2048)), (proj2 (Z.ltb_ge c 65536)) by lia.
  change 0x3F with (Z.ones 6). rewrite !Z.land_ones, !Z.shiftr_div_pow2 by lia.
  change (2 ^ 6) with 64. change (2 ^ 12) with 4096. change (2 ^ 18) with 262144.
  rewrite lorF0, !lor80 by zdm. reflexivity.
Qed.

Lemma utf8_go_ascii (b : Z) (bs : bytes) (cp lo hi : Z) :
  b <= 0x7F -> utf8_go (b :: bs) O cp lo hi = b :: utf8_go bs O 0 0x80 0xBF.
Proof.
  intros Hb. cbn [utf8_go]. unfold lead_step. rewrite (proj2 (Z.leb_le b 0x7F)) by exact Hb.
  reflexivity.
Qed.

Lemma utf8_go_lead (b : Z) (bs : bytes) (n : nat) (c l h cp lo hi : Z) :
  lead_step b = inr (n, c, l, h) -> utf8_go (b :: bs) O cp lo hi = utf8_go bs n c l h.
Proof. intros E. cbn [utf8_go]. now rewrite E. Qed.

Lemma utf8_go_last (b : Z) (bs : bytes) (cp lo hi : Z) :
  lo <= b <= hi ->
  utf8_go (b :: bs) 1 cp lo hi
  = utf16_of_cp (Z.lor (Z.shiftl cp 6) (Z.land b 0x3F)) ++ utf8_go bs O 0 0x80 0xBF.
Proof.
  intros Hb. cbn [utf8_go]. rewrite (proj2 (Z.leb_le lo b)), (proj2 (Z.leb_le b hi)) by lia.
  reflexivity.
Qed.

Lemma utf8_go_mid (b : Z) (bs : bytes) (k : nat) (cp lo hi : Z) :
  lo <= b <= hi ->
  utf8_go (b :: bs) (S (S k)) cp lo hi
  = utf8_go bs (S k) (Z.lor (Z.shiftl cp 6) (Z.land b 0x3F)) 0x80 0xBF.
Proof.
  intros Hb. cbn [utf8_go]. rewrite (proj2 (Z.leb_le lo b)), (proj2 (Z.leb_le b hi)) by lia.
  reflexivity.
Qed.

Lemma is_scalar_spec (c : Z) :
  is_scalar c = true <-> 0 <= c <= 0x10FFFF /\ ~ (0xD800 <= c <= 0xDFFF).
Proof.
  unfold is_scalar. rewrite !andb_true_iff, negb_true_iff, andb_false_iff, !Z.leb_le, !Z.leb_gt.
  lia.
Qed.

Lemma utf8_go_cp (c : Z) (rest : bytes) :
  is_scalar c = true ->
  utf8_go (utf8_of_cp c ++ rest) O 0 0x80 0xBF = utf16_of_cp c ++ utf8_go rest O 0 0x80 0xBF.
Proof.
  intros Hs. apply is_scalar_spec in Hs as [Hc Hsur].
  destruct (Z.lt_ge_cases c 128) as [H1|H1].
  - unfold utf8_of_cp, utf16_of_cp. rewrite (proj2 (Z.ltb_lt c 128)), (proj2 (Z.ltb_lt c 65536)) by lia.
    simpl app. apply utf8_go_ascii. lia.
  - destruct (Z.lt_ge_cases c 2048) as [H2|H2].
    { rewrite utf8_of_cp_2 by lia. simpl app.
      rewrite (utf8_go_lead _ _ _ _ _ _ _ _ _ (lead2 (c / 64) ltac:(zdm))).
      rewrite utf8_go_last by zdm. rewrite cont_recon by zdm.
      replace (c / 64 * 64 + c mod 64) with c by zdm. reflexivity. }
    destruct (Z.lt_ge_cases c 65536) as [H3|H3].
    { rewrite utf8_of_cp_3 by lia. simpl app.
      rewrite (utf8_go_lead _ _ _ _ _ _ _ _ _ (lead3 (c / 4096) ltac:(zdm))).
      rewrite utf8_go_mid by (destruct (Z.eqb_spec (c / 4096) 0), (Z.eqb_spec (c / 4096) 13); zdm).
      rewrite cont_recon by zdm. rewrite utf8_go_last by zdm. rewrite cont_recon by zdm.
      replace ((c / 4096 * 64 + (c / 64) mod 64) * 64 + c mod 64) with c by zdm. reflexivity. }
    rewrite utf8_of_cp_4 by lia. simpl app.
    rewrite (utf8_go_lead _ _ _ _ _ _ _ _ _ (lead4 (c / 262144) ltac:(zdm))).
    rewrite utf8_go_mid by (destruct (Z.eqb_spec (c / 262144) 0), (Z.eqb_spec (c / 262144) 4); zdm).
    rewrite cont_recon by zdm. rewrite utf8_go_mid by zdm. rewrite cont_recon by zdm.
    rewrite utf8_go_last by zdm. rewrite cont_recon by zdm.
    replace (((c / 262144 * 64 + (c / 4096) mod 64) * 64 + (c / 64) mod 64) * 64 + c mod 64)
      with c by zdm. reflexivity.
Qed.

Lemma utf16_of_cp_bmp (c : Z) : c < 0x10000 -> utf16_of_cp c = [c].
Proof. intros Hc. unfold utf16_of_cp. now rewrite (proj2 (Z.ltb_lt c 0x10000)). Qed.

Lemma utf16_of_cp_pair (c : Z) : 0x10000 <= c ->
  utf16_of_cp c = [0xD800 + (c - 0x10000) / 1024; 0xDC00 + (c - 0x10000) mod 1024].
Proof.
  intros Hc. unfold utf16_of_cp. rewrite (proj2 (Z.ltb_ge c 0x10000)) by exact Hc.
  change 0x3FF with (Z.ones 10). rewrite Z.land_ones, Z.shiftr_div_pow2 by lia. reflexivity.
Qed.

Lemma cps_wf_cp (c : Z) (rest : jsstr) :
  is_scalar c = true ->
  cps_of_utf16 (utf16_of_cp c ++ rest) = c :: cps_of_utf16 rest /\
  wf_utf16 (utf16_of_cp c ++ rest) = wf_utf16 rest.
Proof.
  intros Hs. apply is_scalar_spec in Hs as [Hc Hsur].
  destruct (Z.lt_ge_cases c 0x10000) as [H|H].
  - rewrite utf16_of_cp_bmp by exact H. simpl.
    rewrite (proj2 (Z.leb_le 0 c)), (proj2 (Z.leb_le c 0xFFFF)) by lia.
    assert (E1 : (0xD800 <=? c) && (c <=? 0xDBFF) = false)
      by (apply andb_false_iff; rewrite !Z.leb_gt; lia).
    assert (E2 : (0xDC00 <=? c) && (c <=? 0xDFFF) = false)
      by (apply andb_false_iff; rewrite !Z.leb_gt; lia).
    rewrite E1, E2. auto.
  - rewrite utf16_of_cp_pair by exact H. simpl.
    set (u := 0xD800 + (c - 0x10000) / 1024). set (v := 0xDC00 + (c - 0x10000) mod 1024).
    assert (Hu : (0xD800 <=? u) && (u <=? 0xDBFF) = true)
      by (apply andb_true_iff; rewrite !Z.leb_le; unfold u; zdm).
    assert (Hv : (0xDC00 <=? v) && (v <=? 0xDFFF) = true)
      by (apply andb_true_iff; rewrite !Z.leb_le; unfold v; zdm).
    assert (Hu' : (0 <=? u) && (u <=? 0xFFFF) = true)
      by (apply andb_true_iff; rewrite !Z.leb_le; unfold u; zdm).
    rewrite Hu, Hv, Hu'. split; [|reflexivity].
    f_equal. rewrite Z.shiftl_mul_pow2 by lia. unfold u, v. change (2 ^ 10) with 1024. zdm.
Qed.

Lemma cps_of_utf16_flat (cps : list Z) :
  Forall (fun c => is_scalar c = true) cps ->
  cps_of_utf16 (flat_map utf16_of_cp cps) = cps /\ wf_utf16 (flat_map utf16_of_cp cps) = true.
Proof.
  induction 1 as [|c cps Hc _ [IH1 IH2]]; [auto|].
  simpl. destruct (cps_wf_cp c (flat_map utf16_of_cp cps) Hc) as [E1 E2].
  rewrite E1, E2, IH1. auto.
Qed.

Lemma wf_utf16_cps (s : jsstr) :
  wf_utf16 s = true ->
  exists cps, Forall (fun c => is_scalar c = true) cps /\ s = flat_map utf16_of_cp cps.
Proof.
  induction s as [s IH] using (induction_ltof1 _ (@length Z)); unfold ltof in IH.
  destruct s as [|u s']; intros Hw; [exists []; auto|].
  simpl in Hw. apply andb_true_iff in Hw as [Hb Hw]. apply andb_true_iff in Hb as [H0 H1].
  apply Z.leb_le in H0, H1.
  destruct ((0xD800 <=? u) && (u <=? 0xDBFF)) eqn:Hhi.
  - destruct s' as [|v s'']; [discriminate|].
    apply andb_true_iff in Hw as [Hv Hw]. apply andb_true_iff in Hv as [Hv0 Hv1].
    apply andb_true_iff in Hhi as [Hh0 Hh1]. apply Z.leb_le in Hv0, Hv1, Hh0, Hh1.
    destruct (IH s'' ltac:(simpl; lia) Hw) as (cps & Hcps & ->).
    set (c := 0x10000 + (u - 0xD800) * 1024 + (v - 0xDC00)).
    exists (c :: cps). split.
    + constructor; [|exact Hcps]. apply is_scalar_spec. unfold c. lia.
    + simpl. rewrite utf16_of_cp_pair by (unfold c; lia). unfold c.
      cbn [app]. f_equal; [zdm | f_equal; zdm].
  - apply andb_true_iff in Hw as [Hlo Hw]. apply negb_true_iff in Hlo.
    destruct (IH s' ltac:(simpl; lia) Hw) as (cps & Hcps & ->).
    exists (u :: cps). split.
    + constructor; [|exact Hcps]. apply is_scalar_spec.
      apply andb_false_iff in Hhi, Hlo. rewrite !Z.leb_gt in Hhi, Hlo. lia.
    + simpl. rewrite utf16_of_cp_bmp by lia. reflexivity.
Qed.

Lemma utf8_decode_flat (cps : list Z) (rest : bytes) :
  Forall (fun c => is_scalar c = true) cps ->
  utf8_go (flat_map utf8_of_cp cps ++ rest) O 0 0x80 0xBF
  = flat_map utf16_of_cp cps ++ utf8_go rest O 0 0x80 0xBF.
Proof.
  induction 1 as [|c cps Hc _ IH]; [reflexivity|].
  simpl. rewrite <- app_assoc, utf8_go_cp, IH by exact Hc. apply app_assoc.
Qed.

Lemma utf8_decode_encode (s : jsstr) :
  wf_utf16 s = true -> utf8_decode (utf8_encode s) = s.
Proof.
  intros Hw. destruct (wf_utf16_cps s Hw) as (cps & Hcps & ->).
  unfold utf8_decode, utf8_encode.
  rewrite (proj1 (cps_of_utf16_flat cps Hcps)).
  rewrite <- (app_nil_r (flat_map utf8_of_cp cps)), utf8_decode_flat by exact Hcps.
  apply app_nil_r.
Qed.

(** Well-formed pieces: their concatenation is well formed, and its UTF-8
    encoding is the concatenation of their encodings. *)
Lemma utf8_encode_concat (pieces : list jsstr) :
  Forall (fun p => wf_utf16 p = true) pieces ->
  wf_utf16 (concat pieces) = true /\
  utf8_encode (concat pieces) = concat (map utf8_encode pieces).
Proof.
  induction 1 as [|p ps Hp _ [IHw IHe]]; [split; reflexivity|].
  destruct (wf_utf16_cps p Hp) as (c1 & Hc1 & ->).
  destruct (wf_utf16_cps _ IHw) as (c2 & Hc2 & E2).
  cbn [concat map]. rewrite <- IHe, E2, <- flat_map_app.
  assert (Hc : Forall (fun c => is_scalar c = true) (c1 ++ c2)) by (apply Forall_app; auto).
  destruct (cps_of_utf16_flat _ Hc) as [Hcp Hw]. split; [exact Hw|].
  unfold utf8_encode. rewrite Hcp, (proj1 (cps_of_utf16_flat _ Hc1)),
    (proj1 (cps_of_utf16_flat _ Hc2)).
  apply flat_map_app.
Qed.

(** The ['data'] listener of the text write on chunks that each encode
    well-formed pieces. *)
Lemma foldl_decode_pieces (pieces : list jsstr) (acc : jsstr) :
  Forall (fun p => wf_utf16 p = true) pieces ->
  foldl (fun acc chunk => acc ++ utf8_decode chunk) acc (map utf8_encode pieces)
  = acc ++ concat pieces.
Proof.
  intros H. revert acc. induction H as [|p ps Hp _ IH]; intros acc.
  - cbn. symmetry. apply app_nil_r.
  - cbn [map foldl concat]. rewrite IH, utf8_decode_encode by exact Hp. symmetry. apply app_assoc.
Qed.

Lemma uri_unreserved_range (c : Z) : uri_unreserved c = true -> 33 <= c <= 126 /\ c <> 37 /\ c <> 47.
Proof.
  unfold uri_unreserved. rewrite !orb_true_iff, !andb_true_iff, !Z.leb_le. intros H.
  destruct H as [[[H|H]|H]|H]; [lia|lia|lia|].
  change (js "-_.!~*'()") with [45; 95; 46; 33; 126; 42; 39; 40; 41] in H.
  cbn [existsb] in H. rewrite !orb_true_iff, !Z.eqb_eq in H. lia.
Qed.

Lemma encode_flat (cps : list Z) :
  Forall (fun c => is_scalar c = true) cps ->
  encodeURIComponent (flat_map utf16_of_cp cps) = Some (flat_map enc_cp cps).
Proof.
  induction 1 as [|c cps Hc _ IH]; [reflexivity|].
  apply is_scalar_spec in Hc as [Hc Hsur]. simpl.
  destruct (Z.lt_ge_cases c 0x10000) as [H|H].
  - rewrite utf16_of_cp_bmp by exact H. simpl. unfold enc_cp.
    destruct (uri_unreserved c); [now rewrite IH|].
    assert (E1 : (0xD800 <=? c) && (c <=? 0xDBFF) = false)
      by (apply andb_false_iff; rewrite !Z.leb_gt; lia).
    assert (E2 : (0xDC00 <=? c) && (c <=? 0xDFFF) = false)
      by (apply andb_false_iff; rewrite !Z.leb_gt; lia).
    rewrite E1, E2, IH. reflexivity.
  - rewrite utf16_of_cp_pair by exact H. simpl.
    set (u := 0xD800 + (c - 0x10000) / 1024). set (v := 0xDC00 + (c - 0x10000) mod 1024).
    assert (Hun : forall x, 0xD800 <= x -> uri_unreserved x = false).
    { intros x Hx. destruct (uri_unreserved x) eqn:E; [|reflexivity].
      apply uri_unreserved_range in E. lia. }
    assert (Hu : (0xD800 <=? u) && (u <=? 0xDBFF) = true)
      by (apply andb_true_iff; rewrite !Z.leb_le; unfold u; zdm).
    assert (Hu2 : (0xDC00 <=? u) && (u <=? 0xDFFF) = false)
      by (apply andb_false_iff; rewrite !Z.leb_gt; unfold u; zdm).
    assert (Hv : (0xDC00 <=? v) && (v <=? 0xDFFF) = true)
      by (apply andb_true_iff; rewrite !Z.leb_le; unfold v; zdm).
    rewrite Hun by (unfold u; zdm). rewrite Hu2, Hu, Hv, IH.
    unfold enc_cp. rewrite Hun by lia.
    replace ((u - 0xD800) * 0x400 + (v - 0xDC00) + 0x10000) with c by (unfold u, v; zdm).
    reflexivity.
Qed.

Lemma hex_digit_val (n : Z) : 0 <= n < 16 -> hex_val (hex_digit n) = Some n.
Proof. intros Hn. by_range n 16%nat. Qed.

Lemma pct_byte_enc (b : Z) (rest : jsstr) :
  0 <= b < 256 -> pct_byte (pct_enc b ++ rest) = Some (b, rest).
Proof.
  intros Hb. unfold pct_enc. cbn [app pct_byte].
  rewrite !hex_digit_val by zdm. f_equal. f_equal. zdm.
Qed.

Lemma decode_uri_go_other (fuel : nat) (c : Z) (s : jsstr) :
  c <> 37 ->
  decode_uri_go (S fuel) (c :: s) =
    match decode_uri_go fuel s with Some r => Some (c :: r) | None => None end.
Proof.
  intros Hc. cbn [decode_uri_go].
  destruct c as [|p|p]; [reflexivity| |reflexivity].
  do 6 (destruct p as [p|p|]; try reflexivity). exfalso. apply Hc. reflexivity.
Qed.

Lemma cont_land (b : Z) : 128 <= b <= 191 -> Z.land b 0xC0 = 0x80.
Proof. intros Hb. by_range b 192%nat. Qed.

Lemma utf8_of_cp_multi (c : Z) :
  is_scalar c = true -> 128 <= c ->
  exists b1 conts, utf8_of_cp c = b1 :: conts /\ 128 <= b1 < 256 /\
    Forall (fun b => 128 <= b <= 191) conts /\ lead_len b1 = Some (length conts).
Proof.
  intros Hs H1. apply is_scalar_spec in Hs as [Hc Hsur].
  assert (L2 : forall x, 0 <= x < 32 -> lead_len (192 + x) = Some 1%nat)
    by (intros x Hx; by_range x 32%nat).
  assert (L3 : forall x, 0 <= x < 16 -> lead_len (224 + x) = Some 2%nat)
    by (intros x Hx; by_range x 16%nat).
  assert (L4 : forall x, 0 <= x < 8 -> lead_len (240 + x) = Some 3%nat)
    by (intros x Hx; by_range x 8%nat).
  destruct (Z.lt_ge_cases c 2048) as [H2|H2].
  { rewrite utf8_of_cp_2 by lia. eexists _, _. split; [reflexivity|].
    split; [zdm|]. split; [repeat constructor; zdm|]. apply L2. zdm. }
  destruct (Z.lt_ge_cases c 65536) as [H3|H3].
  { rewrite utf8_of_cp_3 by lia. eexists _, _. split; [reflexivity|].
    split; [zdm|]. split; [repeat constructor; zdm|]. apply L3. zdm. }
  rewrite utf8_of_cp_4 by lia. eexists _, _. split; [reflexivity|].
  split; [zdm|]. split; [repeat constructor; zdm|]. apply L4. zdm.
Qed.

Lemma utf8_cont_strict_step (b : Z) (bs : bytes) (k : nat) (cp lo hi : Z) :
  lo <= b <= hi ->
  utf8_cont_strict (b :: bs) (S k) cp lo hi
  = utf8_cont_strict bs k (Z.lor (Z.shiftl cp 6) (Z.land b 0x3F)) 0x80 0xBF.
Proof.
  intros Hb. cbn [utf8_cont_strict]. rewrite (proj2 (Z.leb_le lo b)), (proj2 (Z.leb_le b hi)) by lia.
  reflexivity.
Qed.

Lemma utf8_strict_cp (c : Z) :
  is_scalar c = true -> 128 <= c -> utf8_strict (utf8_of_cp c) = Some c.
Proof.
  intros Hs H1. apply is_scalar_spec in Hs as [Hc Hsur]. unfold utf8_strict.
  destruct (Z.lt_ge_cases c 2048) as [H2|H2].
  { rewrite utf8_of_cp_2 by lia. rewrite lead2 by zdm.
    rewrite utf8_cont_strict_step by zdm. rewrite cont_recon by zdm.
    cbn [utf8_cont_strict]. f_equal. zdm. }
  destruct (Z.lt_ge_cases c 65536) as [H3|H3].
  { rewrite utf8_of_cp_3 by lia. rewrite lead3 by zdm.
    rewrite utf8_cont_strict_step
      by (destruct (Z.eqb_spec (c / 4096) 0), (Z.eqb_spec (c / 4096) 13); zdm).
    rewrite cont_recon by zdm. rewrite utf8_cont_strict_step by zdm. rewrite cont_recon by zdm.
    cbn [utf8_cont_strict]. f_equal. zdm. }
  rewrite utf8_of_cp_4 by lia. rewrite lead4 by zdm.
  rewrite utf8_cont_strict_step
    by (destruct (Z.eqb_spec (c / 262144) 0), (Z.eqb_spec (c / 262144) 4); zdm).
  rewrite cont_recon by zdm. rewrite utf8_cont_strict_step by zdm. rewrite cont_recon by zdm.
  rewrite utf8_cont_strict_step by zdm. rewrite cont_recon by zdm.
  cbn [utf8_cont_strict]. f_equal. zdm.
Qed.

Lemma pct_conts_enc (bs : bytes) (rest : jsstr) :
  Forall (fun b => 128 <= b <= 191) bs ->
  pct_conts (length bs) (flat_map pct_enc bs ++ rest) = Some (bs, rest).
Proof.
  induction 1 as [|b bs Hb _ IH]; [reflexivity|].
  cbn [length pct_conts flat_map]. rewrite <- app_assoc, pct_byte_enc by lia.
  rewrite cont_land by exact Hb. rewrite Z.eqb_refl, IH. reflexivity.
Qed.

Lemma decode_enc_cp (fuel : nat) (c : Z) (rest : jsstr) :
  is_scalar c = true ->
  decode_uri_go (S fuel) (enc_cp c ++ rest) =
    match decode_uri_go fuel rest with Some r => Some (utf16_of_cp c ++ r) | None => None end.
Proof.
  intros Hs. unfold enc_cp. destruct (uri_unreserved c) eqn:Hu.
  { apply uri_unreserved_range in Hu. cbn [app].
    rewrite decode_uri_go_other by lia. rewrite utf16_of_cp_bmp by lia. reflexivity. }
  destruct (Z.lt_ge_cases c 128) as [H1|H1].
  - pose proof Hs as Hs'. apply is_scalar_spec in Hs' as [Hc _].
    unfold utf8_of_cp. rewrite (proj2 (Z.ltb_lt c 128)) by exact H1.
    cbn [flat_map]. rewrite app_nil_r. unfold pct_enc at 1. cbn [app decode_uri_go].
    change (37 :: hex_digit (c / 16) :: hex_digit (c mod 16) :: rest) with (pct_enc c ++ rest).
    rewrite pct_byte_enc by lia. rewrite (proj2 (Z.ltb_lt c 0x80)) by lia.
    rewrite utf16_of_cp_bmp by lia. reflexivity.
  - destruct (utf8_of_cp_multi c Hs H1) as (b1 & conts & E & Hb1 & Hconts & Hlen).
    rewrite E. cbn [flat_map]. rewrite <- app_assoc. unfold pct_enc at 1. cbn [app decode_uri_go].
    change (37 :: hex_digit (b1 / 16) :: hex_digit (b1 mod 16) :: flat_map pct_enc conts ++ rest)
      with (pct_enc b1 ++ (flat_map pct_enc conts ++ rest)).
    rewrite pct_byte_enc by lia. rewrite (proj2 (Z.ltb_ge b1 0x80)) by lia.
    change (if Z.eqb (Z.land b1 0xE0) 0xC0 then Some 1%nat
            else if Z.eqb (Z.land b1 0xF0) 0xE0 then Some 2%nat
            else if Z.eqb (Z.land b1 0xF8) 0xF0 then Some 3%nat else None) with (lead_len b1).
    rewrite Hlen, pct_conts_enc by exact Hconts. rewrite <- E, utf8_strict_cp by assumption.
    reflexivity.
Qed.

Lemma enc_cp_length (c : Z) : (1 <= length (enc_cp c))%nat.
Proof.
  unfold enc_cp. destruct (uri_unreserved c); [simpl; lia|].
  unfold utf8_of_cp. repeat (destruct (_ <? _)); simpl; lia.
Qed.

Lemma decode_flat (cps : list Z) (fuel : nat) :
  Forall (fun c => is_scalar c = true) cps ->
  (length (flat_map enc_cp cps) <= fuel)%nat ->
  decode_uri_go fuel (flat_map enc_cp cps) = Some (flat_map utf16_of_cp cps).
Proof.
  intros Hall. revert fuel. induction Hall as [|c cps Hc _ IH]; intros fuel Hf.
  - destruct fuel; reflexivity.
  - cbn [flat_map] in *. rewrite length_app in Hf. pose proof (enc_cp_length c).
    destruct fuel as [|fuel]; [lia|].
    rewrite decode_enc_cp, IH by (auto; lia). reflexivity.
Qed.

Lemma encode_uri_decode (s : jsstr) :
  wf_utf16 s = true ->
  exists e, encodeURIComponent s = Some e /\ decodeURIComponent e = Some s /\
    Forall (fun c => uri_unreserved c = true \/ c = 37 \/ 48 <= c <= 57 \/ 65 <= c <= 70) e.
Proof.
  intros Hw. destruct (wf_utf16_cps s Hw) as (cps & Hcps & ->).
  exists (flat_map enc_cp cps). split; [now apply encode_flat|]. split.
  - apply decode_flat; [exact Hcps | reflexivity].
  - clear Hw. induction Hcps as [|c cps Hc _ IH]; [constructor|].
    cbn [flat_map]. apply Forall_app; split; [|exact IH].
    unfold enc_cp. destruct (uri_unreserved c) eqn:Hu; [constructor; auto|].
    assert (Hb : Forall (fun b => 0 <= b < 256) (utf8_of_cp c)).
    { apply is_scalar_spec in Hc as [Hc _].
      destruct (Z.lt_ge_cases c 128) as [H1|H1].
      - unfold utf8_of_cp. rewrite (proj2 (Z.ltb_lt c 128)) by exact H1. repeat constructor; lia.
      - destruct (Z.lt_ge_cases c 2048) as [H2|H2].
        { rewrite utf8_of_cp_2 by lia. repeat constructor; zdm. }
        destruct (Z.lt_ge_cases c 65536) as [H3|H3].
        { rewrite utf8_of_cp_3 by lia. repeat constructor; zdm. }
        rewrite utf8_of_cp_4 by lia. repeat constructor; zdm. }
    induction Hb as [|b bs Hb _ IHb]; [constructor|].
    cbn [flat_map]. apply Forall_app; split; [|exact IHb].
    assert (Hd : forall n, 0 <= n < 16 -> 48 <= hex_digit n <= 57 \/ 65 <= hex_digit n <= 70)
      by (intros n Hn; unfold hex_digit; destruct (Z.ltb_spec n 10); lia).
    unfold pct_enc. constructor; [right; left; reflexivity|].
    constructor; [right; right; apply Hd; zdm|]. constructor; [right; right; apply Hd; zdm|].
    constructor.
Qed.

Lemma join_segs_app (rs l : list jsstr) :
  rs <> [] -> l <> [] -> join_segs (rs ++ l) = join_segs rs ++ SLASH :: join_segs l.
Proof.
  intros Hr Hl. induction rs as [|x rs IH]; [congruence|].
  destruct rs as [|y rs].
  - destruct l; [congruence|reflexivity].
  - change ((x :: y :: rs) ++ l) with (x :: ((y :: rs) ++ l)).
    change (join_segs (x :: ((y :: rs) ++ l))) with (x ++ [SLASH] ++ join_segs ((y :: rs) ++ l)).
    rewrite IH by discriminate.
    change (join_segs (x :: y :: rs)) with (x ++ [SLASH] ++ join_segs (y :: rs)).
    rewrite <- !app_assoc. reflexivity.
Qed.

Lemma join_segs_last (l : list jsstr) :
  plain_segs l -> l <> [] -> exists pre c, join_segs l = pre ++ [c] /\ c <> SLASH.
Proof.
  intros Hp Hne. destruct (exists_last Hne) as (l' & n & ->).
  apply Forall_app in Hp as [_ Hn]. apply Forall_inv, plain_segb_spec in Hn as (Hn & Hsl & _).
  destruct (exists_last Hn) as (n' & c & ->).
  rewrite existsb_app in Hsl. apply orb_false_iff in Hsl as [_ Hc]. cbn [existsb] in Hc.
  rewrite orb_false_r in Hc. apply Z.eqb_neq in Hc. apply not_eq_sym in Hc.
  rewrite join_segs_snoc. destruct l' as [|x l'].
  - exists n', c. auto.
  - exists (join_segs (x :: l') ++ SLASH :: n'), c. split; [|auto].
    rewrite <- app_assoc. reflexivity.
Qed.

Lemma path_normalize_abs (X : jsstr) (L : list jsstr) :
  plain_segs L -> L <> [] ->
  norm_go false (split_char SLASH X) [] = rev L ->
  (exists pre c, X = pre ++ [c] /\ c <> SLASH) ->
  path_normalize (SLASH :: X) = SLASH :: join_segs L.
Proof.
  intros Hp Hne Hn (pre & c & -> & Hc).
  unfold path_normalize. cbv zeta. rewrite Z.eqb_refl.
  rewrite app_comm_cons, last_snoc. rewrite (proj2 (Z.eqb_neq c SLASH) Hc).
  unfold normalize_string. change (negb true) with false.
  rewrite <- app_comm_cons, split_char_sep_cons, norm_go_empty_seg, Hn, rev_involutive.
  destruct L as [|x L]; [congruence|].
  inversion Hp as [|? ? Hx _]; subst. apply plain_segb_spec in Hx as (Hx & _).
  destruct (join_segs (x :: L)) eqn:E; [|reflexivity].
  exfalso. destruct L; simpl in E; [congruence|]. apply app_eq_nil in E as [E _]. congruence.
Qed.

Lemma path_join_dir_path_segs (rs ns : list jsstr) :
  plain_segs rs -> plain_segs ns ->
  path_join (dir_path rs) (join_segs ns) = dir_path (rs ++ ns).
Proof.
  intros Hr Hn. destruct (decide (ns = [])) as [->|Hne].
  - rewrite app_nil_r. destruct (decide (rs = [])) as [->|Hrne]; [reflexivity|].
    change (path_join (dir_path rs) []) with (path_normalize (SLASH :: join_segs rs)).
    apply path_normalize_abs; [exact Hr | exact Hrne | |now apply join_segs_last].
    rewrite split_join_plain, norm_go_plain, app_nil_r by assumption. reflexivity.
  - assert (Hjn : join_segs ns <> []).
    { destruct (join_segs_last ns Hn Hne) as (pre & c & E & _). rewrite E.
      destruct pre; discriminate. }
    destruct (join_segs ns) as [|j js'] eqn:Ej; [congruence|].
    change (path_join (dir_path rs) (j :: js'))
      with (path_normalize (SLASH :: (join_segs rs ++ SLASH :: j :: js'))).
    rewrite <- Ej. unfold dir_path.
    assert (Hsplit : split_char SLASH (join_segs rs ++ SLASH :: join_segs ns)
                     = (match rs with [] => [[]] | _ => rs end) ++ ns).
    { rewrite split_char_app, (split_join_plain ns) by assumption.
      destruct rs; [reflexivity|]. rewrite split_join_plain by (auto; discriminate). reflexivity. }
    apply path_normalize_abs.
    + apply Forall_app; auto.
    + destruct ns; [congruence|]. destruct rs; discriminate.
    + rewrite Hsplit. destruct rs as [|r rs'].
      * cbn [app]. rewrite norm_go_empty_seg, norm_go_plain by exact Hn. apply app_nil_r.
      * rewrite norm_go_plain by (apply Forall_app; auto). apply app_nil_r.
    + destruct (join_segs_last ns Hn Hne) as (pre & c & E & Hc).
      exists (join_segs rs ++ SLASH :: pre), c. split; [|exact Hc].
      rewrite E, app_comm_cons, app_assoc. reflexivity.
Qed.

Lemma is_prefix_dir_path_app (rs l : list jsstr) :
  is_prefix (dir_path rs) (dir_path (rs ++ l)) = true.
Proof.
  destruct (decide (l = [])) as [->|Hl].
  { rewrite app_nil_r, <- (app_nil_r (dir_path rs)) at 1. rewrite app_nil_r at 1.
    rewrite <- (app_nil_r (dir_path rs)) at 2. apply is_prefix_app. }
  destruct (decide (rs = [])) as [->|Hr]; [reflexivity|].
  unfold dir_path. rewrite join_segs_app by assumption. rewrite app_comm_cons. apply is_prefix_app.
Qed.

Lemma jseqb_true (a b : jsstr) : jseqb a b = true <-> a = b.
Proof.
  revert b. induction a as [|x a IH]; intros [|y b]; simpl; try (split; congruence).
  rewrite andb_true_iff, Z.eqb_eq, IH. split; [intros [-> ->]; reflexivity | intros E; injection E; auto].
Qed.

Lemma wf_utf16_app (a b : jsstr) : wf_utf16 a = true -> wf_utf16 (a ++ b) = wf_utf16 b.
Proof.
  intros Ha. destruct (wf_utf16_cps a Ha) as (cps & Hcps & ->). clear Ha.
  induction Hcps as [|c cps Hc _ IH]; [reflexivity|].
  cbn [flat_map]. rewrite <- app_assoc. rewrite (proj2 (cps_wf_cp c _ Hc)). exact IH.
Qed.

Lemma search_param_ui (a : OpenClawApp) (req : request) :
  query req = query_on_wire (addAuthParams a) ->
  search_param req (js "path") =
    match workspaceCurrentPath a with [] => None | p => Some (utf8_decode (utf8_encode p)) end.
Proof.
  intros Hq. unfold search_param. rewrite Hq. unfold addAuthParams, query_on_wire.
  assert (Et : utf8_decode (utf8_encode (js "token")) = js "token") by (vm_compute; reflexivity).
  assert (Eu : utf8_decode (utf8_encode (js "username")) = js "username") by (vm_compute; reflexivity).
  assert (Ep : utf8_decode (utf8_encode (js "path")) = js "path") by (vm_compute; reflexivity).
  cbn [app map list_find fst snd]. rewrite Et.
  rewrite decide_False by (vm_compute; discriminate).
  destruct (js_or (app_username a) (js_or (settings_username a) [])) as [|u us];
    cbn [app map list_find fst snd].
  - destruct (workspaceCurrentPath a) as [|p ps]; [reflexivity|].
    cbn [map list_find fst snd]. rewrite Ep, decide_True by reflexivity. reflexivity.
  - rewrite Eu, decide_False by (vm_compute; discriminate).
    destruct (workspaceCurrentPath a) as [|p ps]; [reflexivity|].
    cbn [map list_find fst snd]. rewrite Ep, decide_True by reflexivity. reflexivity.
Qed.

Lemma wf_join_segs_snoc (cs : list jsstr) (name : jsstr) :
  wf_utf16 (join_segs cs) = true -> wf_utf16 name = true ->
  wf_utf16 (join_segs (cs ++ [name])) = true.
Proof.
  intros Hc Hn. rewrite join_segs_snoc. destruct cs; [exact Hn|].
  rewrite wf_utf16_app by exact Hc. exact Hn.
Qed.

Lemma fullPath_segs (a : OpenClawApp) (cs : list jsstr) (name : jsstr) :
  plain_segs cs -> workspaceCurrentPath a = join_segs cs ->
  fullPath a name = join_segs (cs ++ [name]).
Proof.
  intros Hp Hcur. unfold fullPath. rewrite Hcur, join_segs_snoc.
  destruct cs as [|c cs]; [reflexivity|].
  destruct (join_segs (c :: cs)) as [|x r] eqn:E; [|reflexivity].
  exfalso. destruct (join_segs_last (c :: cs) Hp ltac:(discriminate)) as (pre & z & E' & _).
  rewrite E in E'. destruct pre; discriminate.
Qed.

(** The segment [encodeURIComponent] makes of [cur/name]. *)
Lemma ui_segment (a : OpenClawApp) (cs : list jsstr) (name : jsstr) :
  plain_segs cs -> workspaceCurrentPath a = join_segs cs -> wf_utf16 (join_segs cs) = true ->
  plain_segb name = true -> wf_utf16 name = true ->
  exists e, encodeURIComponent (fullPath a name) = Some e /\
    decodeURIComponent e = Some (join_segs (cs ++ [name])) /\ plain_segb e = true.
Proof.
  intros Hp Hcur Hwc Hn Hwn. rewrite (fullPath_segs a cs name Hp Hcur).
  assert (Hpn : plain_segs (cs ++ [name])) by (apply Forall_app; auto).
  destruct (encode_uri_decode _ (wf_join_segs_snoc cs name Hwc Hwn))
    as (e & He & Hd & Ha).
  exists e. split; [exact He|]. split; [exact Hd|].
  pose proof (plain_segb_spec name Hn) as (Hn0 & _ & _ & Hn1 & Hn2).
  assert (Hsplit : forall x, decodeURIComponent e = Some x -> split_char SLASH x = cs ++ [name])
    by (intros x Hx; rewrite Hd in Hx; injection Hx as <-; apply split_join_plain; [exact Hpn|];
        destruct cs; discriminate).
  assert (Hone : forall x, decodeURIComponent e = Some x -> existsb (Z.eqb SLASH) x = false ->
                           name = x).
  { intros x Hx Hsl. specialize (Hsplit x Hx). rewrite split_char_no_sep in Hsplit by exact Hsl.
    symmetry in Hsplit. apply app_eq_unit in Hsplit as [[_ H]|[_ H]]; congruence. }
  unfold plain_segb. apply andb_true_iff; split; [apply andb_true_iff; split; [apply andb_true_iff; split|]|].
  - apply negb_true_iff. destruct e; [|reflexivity]. exfalso.
    apply Hn0, (Hone [] eq_refl eq_refl).
  - apply negb_true_iff. apply not_true_iff_false. intros Hs.
    apply existsb_exists in Hs as (x & Hx & Hxe). apply Z.eqb_eq in Hxe. subst x.
    rewrite Forall_forall in Ha. specialize (Ha _ (proj2 (list_elem_of_In _ _) Hx)).
    unfold SLASH in Ha. destruct Ha as [Hu|Hu]; [apply uri_unreserved_range in Hu|]; lia.
  - apply negb_true_iff. apply not_true_iff_false. intros He1. apply jseqb_true in He1. subst e.
    assert (Hx : decodeURIComponent (js ".") = Some (js ".")) by reflexivity.
    rewrite (Hone _ Hx eq_refl) in Hn1. discriminate.
  - apply negb_true_iff. apply not_true_iff_false. intros He1. apply jseqb_true in He1. subst e.
    assert (Hx : decodeURIComponent (js "..") = Some (js "..")) by reflexivity.
    rewrite (Hone _ Hx eq_refl) in Hn2. discriminate.
Qed.

Lemma url_path_plain (dir : list jsstr) (e : jsstr) :
  plain_segb e = true -> url_path dir e = SLASH :: join_segs (dir ++ [e]).
Proof.
  intros He. pose proof (plain_segb_spec e He) as (_ & _ & _ & H1 & H2).
  unfold url_path. rewrite H1, H2. reflexivity.
Qed.

Lemma strip_leading_slashes_plain (e : jsstr) :
  plain_segb e = true -> strip_leading_slashes e = e.
Proof.
  intros He. pose proof (plain_segb_spec e He) as (_ & Hsl & _).
  destruct e as [|c e]; [reflexivity|]. cbn [existsb] in Hsl. apply orb_false_iff in Hsl as [Hc _].
  cbn [strip_leading_slashes]. rewrite Z.eqb_sym, Hc. reflexivity.
Qed.

Lemma query_path_ui (a : OpenClawApp) (req : request) (cs : list jsstr) :
  query req = query_on_wire (addAuthParams a) ->
  workspaceCurrentPath a = join_segs cs -> wf_utf16 (join_segs cs) = true ->
  match search_param req (js "path") with Some q => q | None => [] end = join_segs cs.
Proof.
  intros Hq Hcur Hw. rewrite (search_param_ui a req Hq), Hcur.
  destruct (join_segs cs) as [|x r] eqn:E; [reflexivity|].
  apply utf8_decode_encode. exact Hw.
Qed.

Lemma ensure_root_exists (rs : list jsstr) (w : world) :
  plain_segs rs -> w_fs w !! rs <> None ->
  ensure_root (dir_path rs) w =
    (inr tt, {| w_fs := w_fs w; w_log := w_log w ++ [OpExists (dir_path rs)] |}).
Proof.
  intros Hrs Hr. cbv [ensure_root existsSync mbind fs_call mret]. cbn [w_fs w_log].
  rewrite key_of_dir_path by exact Hrs. destruct (w_fs w !! rs); [reflexivity | congruence].
Qed.

(** The handler on [/api/workspace/<sp>] with [?path] naming the folder [cs]
    of an existing root: the prelude, then the file operations on the
    folder [rs ++ cs]. *)
Lemma handle_file_route (rs cs : list jsstr) (sp : jsstr) (req : request) (w : world) :
  plain_segs rs -> plain_segs cs -> w_fs w !! rs <> None ->
  pathname req = API ++ SLASH :: sp -> sp <> [] -> hd_error sp <> Some SLASH ->
  match search_param req (js "path") with Some q => q | None => [] end = join_segs cs ->
  handleWorkspaceHttpRequest true (dir_path rs) req w =
    (do r <- file_ops (dir_path rs) (dir_path (rs ++ cs)) sp req ;
     match r with
     | Some o => mret o
     | None =>
         if jseqb (pathname req) (js "/api/workspace/upload") && jseqb (method req) POST
         then upload_op (dir_path (rs ++ cs)) req
         else mret Unhandled
     end)
    {| w_fs := w_fs w; w_log := w_log w ++ [OpExists (dir_path rs)] |}.
Proof.
  intros Hrs Hcs Hr Hp Hsp Hhd Hq.
  unfold handleWorkspaceHttpRequest. rewrite Hp, is_prefix_app. cbn [negb].
  rewrite (mbind_ok _ _ _ _ _ (ensure_root_exists rs w Hrs Hr)). cbv beta zeta.
  rewrite Hq, path_join_dir_path_segs by assumption. rewrite is_prefix_dir_path_app. cbn [negb].
  rewrite drop_app_length. cbn [strip_leading_slashes]. rewrite Z.eqb_refl.
  assert (Hs : strip_leading_slashes sp = sp).
  { destruct sp as [|c sp']; [reflexivity|]. cbn [hd_error] in Hhd. cbn [strip_leading_slashes].
    destruct (Z.eqb_spec c SLASH); [congruence | reflexivity]. }
  rewrite Hs. destruct sp as [|c sp']; [congruence|]. reflexivity.
Qed.

Lemma is_prefix_spec (p s : jsstr) : is_prefix p s = true -> s = p ++ drop (length p) s.
Proof.
  revert s. induction p as [|x p IH]; intros s H; [reflexivity|].
  destruct s as [|y s]; [discriminate|]. cbn in H. apply andb_true_iff in H as [H1 H2].
  apply Z.eqb_eq in H1. subst y. cbn. f_equal. apply IH, H2.
Qed.

Lemma includes_slash_free (t s : jsstr) :
  existsb (Z.eqb SLASH) s = false -> includes (SLASH :: t) s = false.
Proof.
  induction s as [|c s IH]; intros H; [reflexivity|].
  cbn [existsb] in H. apply orb_false_iff in H as [H1 H2].
  change (includes (SLASH :: t) (c :: s)) with (is_prefix (SLASH :: t) (c :: s) || includes (SLASH :: t) s).
  cbn [is_prefix]. rewrite H1, IH by exact H2. reflexivity.
Qed.

Lemma is_prefix_slash_free (p s : jsstr) :
  existsb (Z.eqb SLASH) p = true -> existsb (Z.eqb SLASH) s = false -> is_prefix p s = false.
Proof.
  intros Hp Hs. destruct (is_prefix p s) eqn:E; [|reflexivity].
  apply is_prefix_spec in E. rewrite E, existsb_app, Hp in Hs. discriminate.
Qed.

Lemma includes_cons (sub : jsstr) (c : Z) (s : jsstr) :
  includes sub (c :: s) = is_prefix sub (c :: s) || includes sub s.
Proof. reflexivity. Qed.

Lemma is_prefix_cons (x y : Z) (p s : jsstr) :
  is_prefix (x :: p) (y :: s) = Z.eqb x y && is_prefix p s.
Proof. reflexivity. Qed.

Lemma not_text_route (e : jsstr) :
  existsb (Z.eqb SLASH) e = false -> includes (js "/text/") (API ++ SLASH :: e) = false.
Proof.
  intros He. change (API ++ SLASH :: e) with (47 :: 97 :: 112 :: 105 :: 47 :: 119 :: 111 :: 114 :: 107 :: 115 :: 112 :: 97 :: 99 :: 101 :: 47 :: e).
  change (js "/text/") with [47; 116; 101; 120; 116; 47].
  rewrite !includes_cons, !is_prefix_cons. cbn [Z.eqb Pos.eqb andb orb].
  rewrite (is_prefix_slash_free [116; 101; 120; 116; 47] e) by (reflexivity || exact He).
  exact (includes_slash_free [116; 101; 120; 116; 47] e He).
Qed.

Lemma mbind_some (m : M outcome) (k : option outcome -> M outcome) (w : world) :
  (forall o, k (Some o) = mret o) ->
  mbind (do o <- m ; mret (Some o)) k w = m w.
Proof.
  intros Hk. unfold mbind. destruct (m w) as [[x|o] w']; [reflexivity|].
  cbv [mret]. rewrite Hk. reflexivity.
Qed.

Lemma decode_uri_go_plain_prefix (p s : jsstr) (fuel : nat) :
  Forall (fun c => c <> 37) p ->
  decode_uri_go (length p + fuel) (p ++ s) =
    match decode_uri_go fuel s with Some r => Some (p ++ r) | None => None end.
Proof.
  induction 1 as [|c p Hc _ IH].
  - cbn. destruct (decode_uri_go fuel s); reflexivity.
  - cbn [length app Nat.add]. rewrite decode_uri_go_other by exact Hc. rewrite IH.
    destruct (decode_uri_go fuel s); reflexivity.
Qed.

Lemma includes_app_r (sub a b : jsstr) : includes sub b = true -> includes sub (a ++ b) = true.
Proof.
  induction a as [|c a IH]; intros H; [exact H|].
  cbn [app]. rewrite includes_cons, IH by exact H. apply orb_true_r.
Qed.

Lemma text_pathname (e : jsstr) :
  SLASH :: join_segs (text_dir ++ [e]) = API ++ SLASH :: (js "text/" ++ e).
Proof. reflexivity. Qed.

Lemma text_route (e : jsstr) : includes (js "/text/") (API ++ SLASH :: (js "text/" ++ e)) = true.
Proof.
  change (API ++ SLASH :: (js "text/" ++ e)) with (API ++ (js "/text/" ++ e)).
  apply includes_app_r. change (includes (js "/text/") (js "/text/" ++ e))
    with (is_prefix (js "/text/") (js "/text/" ++ e) || includes (js "/text/") (js "text/" ++ e)).
  rewrite is_prefix_app. reflexivity.
Qed.

Lemma strip_text_prefix_text (e : jsstr) : strip_text_prefix (js "text/" ++ e) = e.
Proof. unfold strip_text_prefix. rewrite is_prefix_app. reflexivity. Qed.

(** The text routes, as far as [file_ops] goes: the decoded name only
    passes the prefix check; the text branches get the raw [subPath]. *)
Lemma file_ops_text (rs cs fn : list jsstr) (e : jsstr) (req : request) :
  plain_segs rs -> plain_segs cs ->
  pathname req = API ++ SLASH :: (js "text/" ++ e) ->
  decodeURIComponent e = Some (join_segs fn) -> plain_segs fn -> fn <> [] ->
  file_ops (dir_path rs) (dir_path (rs ++ cs)) (js "text/" ++ e) req =
    if jseqb (method req) DELETE then
      do o <- delete_op (dir_path (rs ++ cs ++ js "text" :: fn)) ; mret (Some o)
    else if jseqb (method req) GET then
      do o <- text_read_op (dir_path (rs ++ cs)) (js "text/" ++ e) ; mret (Some o)
    else if jseqb (method req) PUT then
      do o <- text_write_op (dir_path (rs ++ cs)) (js "text/" ++ e) (chunks req) ; mret (Some o)
    else mret None.
Proof.
  intros Hrs Hcs Hp Hd Hfn Hne. unfold file_ops.
  assert (Hd' : decodeURIComponent (js "text/" ++ e) = Some (join_segs (js "text" :: fn))).
  { unfold decodeURIComponent. rewrite length_app.
    rewrite decode_uri_go_plain_prefix by (repeat constructor; discriminate).
    change (length e) with (length e). fold (decodeURIComponent e). rewrite Hd.
    destruct fn as [|f fn']; [congruence | reflexivity]. }
  rewrite Hd'. cbv zeta.
  assert (Hpl : plain_segs (js "text" :: fn)) by (constructor; [reflexivity | exact Hfn]).
  rewrite path_join_dir_path_segs, <- app_assoc, is_prefix_dir_path_app by (auto; apply Forall_app; auto).
  cbn [negb]. rewrite Hp, text_route. cbn [negb].
  rewrite andb_false_r, !andb_true_r. reflexivity.
Qed.

Lemma text_ops_path (rs cs : list jsstr) (e : jsstr) :
  plain_segs rs -> plain_segs cs -> plain_segb e = true ->
  path_join (dir_path (rs ++ cs)) (strip_text_prefix (js "text/" ++ e)) = dir_path (rs ++ cs ++ [e]) /\
  is_prefix (dir_path (rs ++ cs)) (dir_path (rs ++ cs ++ [e])) = true.
Proof.
  intros Hrs Hcs He. rewrite strip_text_prefix_text, path_join_dir_path, <- app_assoc
    by (auto; apply Forall_app; auto).
  split; [reflexivity|]. rewrite app_assoc. apply is_prefix_dir_path_snoc.
Qed.

Lemma existsSync_some (p : jsstr) (w : world) (v : node) :
  w_fs w !! key_of p = Some v ->
  existsSync p w = (inr true, {| w_fs := w_fs w; w_log := w_log w ++ [OpExists p] |}).
Proof. intros H. cbv [existsSync mbind fs_call mret]. cbn [w_fs w_log]. rewrite H. reflexivity. Qed.

Lemma readFileSync_file (p : jsstr) (w : world) (d : bytes) :
  w_fs w !! key_of p = Some (File d) ->
  readFileSync p w = (inr d, {| w_fs := w_fs w; w_log := w_log w ++ [OpReadFile p] |}).
Proof. intros H. cbv [readFileSync mbind fs_call mret]. cbn [w_fs w_log]. rewrite H. reflexivity. Qed.

Lemma lead_bad1 (x : Z) : 0 <= x < 66 -> lead_step (128 + x) = inl [REPLACEMENT].
Proof. intros Hx. by_range x 66%nat. Qed.

Lemma lead_bad2 (x : Z) : 0 <= x < 11 -> lead_step (245 + x) = inl [REPLACEMENT].
Proof. intros Hx. by_range x 11%nat. Qed.

Lemma wf_utf16_cp (c : Z) : is_scalar c = true -> wf_utf16 (utf16_of_cp c) = true.
Proof.
  intros Hc. rewrite <- (app_nil_r (utf16_of_cp c)). rewrite (proj2 (cps_wf_cp c [] Hc)).
  reflexivity.
Qed.

Lemma lead_ok (b : Z) :
  0 <= b <= 255 ->
  match lead_step b with
  | inl out => wf_utf16 out = true
  | inr (n, c, l, h) => exists k, n = S k /\ cont_ok k c l h
  end.
Proof.
  intros Hb.
  destruct (Z.le_gt_cases b 0x7F) as [H1|H1].
  { unfold lead_step. rewrite (proj2 (Z.leb_le b 0x7F)) by exact H1.
    rewrite <- utf16_of_cp_bmp by lia. apply wf_utf16_cp, is_scalar_spec. lia. }
  destruct (Z.lt_ge_cases b 0xC2) as [H2|H2].
  { replace b with (128 + (b - 128)) by lia. rewrite lead_bad1 by lia. reflexivity. }
  destruct (Z.le_gt_cases b 0xDF) as [H3|H3].
  { replace b with (192 + (b - 192)) by lia. rewrite lead2 by lia.
    exists O. split; [reflexivity|]. cbn [cont_ok]. split; [lia|]. split; [lia|].
    intros b' Hb'. apply is_scalar_spec. lia. }
  destruct (Z.le_gt_cases b 0xEF) as [H4|H4].
  { replace b with (224 + (b - 224)) by lia. rewrite lead3 by lia.
    exists 1%nat. split; [reflexivity|].
    destruct (Z.eqb_spec (b - 224) 0) as [E0|E0], (Z.eqb_spec (b - 224) 13) as [E13|E13];
      cbn [cont_ok]; (split; [lia|]); (split; [lia|]); intros b1 Hb1;
      (split; [lia|]); (split; [lia|]); intros b2 Hb2; apply is_scalar_spec; lia. }
  destruct (Z.le_gt_cases b 0xF4) as [H5|H5].
  { replace b with (240 + (b - 240)) by lia. rewrite lead4 by lia.
    exists 2%nat. split; [reflexivity|].
    destruct (Z.eqb_spec (b - 240) 0) as [E0|E0], (Z.eqb_spec (b - 240) 4) as [E4|E4];
      cbn [cont_ok]; (split; [lia|]); (split; [lia|]); intros b1 Hb1;
      (split; [lia|]); (split; [lia|]); intros b2 Hb2;
      (split; [lia|]); (split; [lia|]); intros b3 Hb3; apply is_scalar_spec; lia. }
  replace b with (245 + (b - 245)) by lia. rewrite lead_bad2 by lia. reflexivity.
Qed.

Lemma utf8_go_wf (bs : bytes) :
  Forall (fun b => 0 <= b <= 255) bs ->
  forall n cp lo hi, (n = O \/ exists k, n = S k /\ cont_ok k cp lo hi) ->
  wf_utf16 (utf8_go bs n cp lo hi) = true.
Proof.
  induction 1 as [|b bs Hb Hbs IH]; intros n cp lo hi Hn.
  - destruct n; reflexivity.
  - assert (Hlead : wf_utf16 (match lead_step b with
                              | inl out => out ++ utf8_go bs O 0 0x80 0xBF
                              | inr (n, c, l, h) => utf8_go bs n c l h
                              end) = true).
    { pose proof (lead_ok b Hb) as Hl.
      destruct (lead_step b) as [out|[[[n' c] l] h]].
      - rewrite wf_utf16_app by exact Hl. apply IH. left. reflexivity.
      - apply IH. right. exact Hl. }
    destruct Hn as [->|(k & -> & Hc)]; [exact Hlead|].
    assert (Hc' : 0x80 <= lo /\ hi <= 0xBF /\
                  forall b, lo <= b <= hi ->
                    match k with
                    | O => is_scalar (cp * 64 + (b - 128)) = true
                    | S k' => cont_ok k' (cp * 64 + (b - 128)) 0x80 0xBF
                    end) by (destruct k; exact Hc).
    destruct Hc' as (Hlo & Hhi & Hall).
    cbn [utf8_go]. destruct ((lo <=? b) && (b <=? hi)) eqn:E.
    + apply andb_true_iff in E as [E1 E2]. apply Z.leb_le in E1, E2.
      assert (R : Z.lor (Z.shiftl cp 6) (Z.land b 0x3F) = cp * 64 + (b - 128)).
      { pose proof (cont_recon cp (b - 128) ltac:(lia)) as R.
        replace (128 + (b - 128)) with b in R by lia. exact R. }
      rewrite R. specialize (Hall b ltac:(lia)).
      destruct k as [|k'].
      * rewrite wf_utf16_app by (apply wf_utf16_cp; exact Hall). apply IH. left. reflexivity.
      * apply IH. right. exists k'. split; [reflexivity|exact Hall].
    + change (REPLACEMENT :: ?x) with ([REPLACEMENT] ++ x).
      rewrite wf_utf16_app by reflexivity. exact Hlead.
Qed.

Lemma mapM_total_with {A B} (f : A -> M B) (g : B -> A) (Q : B -> Prop) (m : fstree) (l : list A) :
  (forall x, x ∈ l -> forall w, w_fs w = m ->
     exists y w', f x w = (inr y, w') /\ w_fs w' = m /\ g y = x /\ Q y) ->
  forall w, w_fs w = m ->
  exists ys w', mapM f l w = (inr ys, w') /\ w_fs w' = m /\ map g ys = l /\ Forall Q ys.
Proof.
  induction l as [|x l IH]; intros Hf w Hw.
  - exists [], w. auto.
  - destruct (Hf x ltac:(left) w Hw) as (y & w1 & E1 & Hw1 & Hg & Hq).
    destruct (IH (fun x' Hx' => Hf x' ltac:(by right)) w1 Hw1) as (ys & w2 & E2 & Hw2 & Hgs & Hqs).
    exists (y :: ys), w2. cbn [mapM]. unfold mbind at 1. rewrite E1.
    unfold mbind. rewrite E2. simpl. rewrite Hg, Hgs. auto.
Qed.

(** The listing of a directory [segs]: one entry per child, its size
    and kind read off the tree; the tree is not changed. *)
Lemma list_op_entries (segs : list jsstr) (w : world) :
  keys_plain (w_fs w) -> w_fs w !! segs = Some Dir ->
  exists files w',
    list_op (dir_path segs) w =
      (inr (sendJson 200 (JFiles (filter (fun f => ~ is_prefix (js ".") (fe_name f) = true) files))), w') /\
    w_fs w' = w_fs w /\
    map fe_name files = children (w_fs w) segs /\
    Forall (fun f => match w_fs w !! (segs ++ [fe_name f]) with
                     | Some (File d) => fe_size f = Z.of_nat (length d) /\ fe_isDirectory f = false
                     | Some Dir => fe_size f = dir_size /\ fe_isDirectory f = true
                     | None => False
                     end) files.
Proof.
  intros Hm Hd.
  assert (Hs : plain_segs segs) by exact (keys_plain_at _ _ _ Hm Hd).
  set (m := w_fs w).
  set (w1 := {| w_fs := m; w_log := w_log w ++ [OpReaddir (dir_path segs)] |}).
  assert (E1 : readdirSync (dir_path segs) w = (inr (children m segs), w1)).
  { cbv [readdirSync mbind fs_call mret]. cbn [w_fs w_log].
    rewrite key_of_dir_path by exact Hs. unfold m. rewrite Hd. reflexivity. }
  set (f := fun name : jsstr =>
          do st <- statSync (path_join (dir_path segs) name) ;
          mret {| fe_name := name;
                  fe_size := match st with File d => Z.of_nat (length d)
                                          | Dir => dir_size end;
                  fe_isDirectory := match st with Dir => true
                                                 | File _ => false end |}).
  destruct (mapM_total_with f fe_name
              (fun f => match m !! (segs ++ [fe_name f]) with
                        | Some (File d) => fe_size f = Z.of_nat (length d) /\ fe_isDirectory f = false
                        | Some Dir => fe_size f = dir_size /\ fe_isDirectory f = true
                        | None => False
                        end) m (children m segs)) with (w := w1)
    as (ys & w2 & E2 & Hw2 & Hg & Hq); [|reflexivity|].
  { intros x Hx w' Hw'. apply elem_of_children in Hx as [v Hv].
    assert (Hk : plain_segs (segs ++ [x])) by exact (keys_plain_at _ _ _ Hm Hv).
    apply Forall_app in Hk as Hk'. destruct Hk' as [_ Hx].
    apply Forall_inv in Hx.
    eexists _, _. split.
    - unfold f. cbv [statSync mbind fs_call mret]. cbn [w_fs w_log].
      rewrite path_join_dir_path, key_of_dir_path by assumption.
      rewrite Hw', Hv. reflexivity.
    - split; [reflexivity|]. split; [reflexivity|]. cbn [fe_name].
      rewrite Hv. destruct v; cbn; auto. }
  exists ys, w2. split; [|split; [exact Hw2|split; [exact Hg|exact Hq]]].
  unfold list_op, try_catch. unfold mbind at 1. rewrite E1.
  unfold mbind at 1. fold f. rewrite E2. reflexivity.
Qed.

(** The handler on [GET /api/workspace] with [?path] naming the folder [cs]
    of an existing root: the prelude, then the listing of [rs ++ cs]. *)
Lemma handle_list_route (rs cs : list jsstr) (req : request) (w : world) :
  plain_segs rs -> plain_segs cs -> w_fs w !! rs <> None ->
  pathname req = API -> method req = GET ->
  match search_param req (js "path") with Some q => q | None => [] end = join_segs cs ->
  handleWorkspaceHttpRequest true (dir_path rs) req w =
    list_op (dir_path (rs ++ cs)) {| w_fs := w_fs w; w_log := w_log w ++ [OpExists (dir_path rs)] |}.
Proof.
  intros Hrs Hcs Hr Hp Hm Hq.
  unfold handleWorkspaceHttpRequest. rewrite Hp.
  change (is_prefix API API) with true. cbn [negb].
  rewrite (mbind_ok _ _ _ _ _ (ensure_root_exists rs w Hrs Hr)). cbv beta zeta.
  rewrite Hq, path_join_dir_path_segs by assumption. rewrite is_prefix_dir_path_app. cbn [negb].
  rewrite Hm. reflexivity.
Qed.

Lemma list_op_not_dir (p : jsstr) (w : world) :
  w_fs w !! key_of p <> Some Dir ->
  list_op p w =
    (inr (sendJson 500 (JError (js "Failed to list workspace"))),
     {| w_fs := w_fs w; w_log := w_log w ++ [OpReaddir p] |}).
Proof.
  intros H. cbv [list_op try_catch mbind readdirSync fs_call mret fs_fail throw]. cbn [w_fs w_log].
  destruct (w_fs w !! key_of p) as [[d|]|]; [reflexivity | congruence | reflexivity].
Qed.

Lemma split_go_absent (sep s cur : jsstr) :
  sep <> [] -> includes sep s = false -> split_go sep s 0 cur = [rev cur ++ s].
Proof.
  intros Hsep. revert cur. induction s as [|c s IH]; intros cur Hi.
  - rewrite app_nil_r. reflexivity.
  - cbn [includes] in Hi. apply orb_false_iff in Hi as [H1 H2].
    cbn [split_go]. rewrite H1, IH by exact H2. cbn. rewrite <- app_assoc. reflexivity.
Qed.

(* ================================================================== *)
(** * Claims *)

(** ** C1 *)

(** C1 (code_bug): the containment check is a string prefix test. With
    [R = /data/ws], the name [..%2Fws-evil%2Fsecret.txt] resolves to
    [/data/ws-evil/secret.txt], which starts with the string [/data/ws] but
    is outside the directory [/data/ws]: the DELETE is accepted and the
    file of the sibling directory is removed. The listing of
    [?path=../ws-evil] is served in the same way. The spec's own case
    [../../etc/passwd] is rejected with 403. *)
Lemma C1_sibling_prefix_escape :
  let req := mk_request "DELETE" "/api/workspace/..%2Fws-evil%2Fsecret.txt" [] None [] in
  let target := js "/data/ws-evil/secret.txt" in
  path_join ROOT (js "../ws-evil/secret.txt") = target /\
  is_prefix (ROOT ++ [SLASH]) target = false /\
  target <> ROOT /\
  w_fs sample_world !! key_of target = Some (File [115]) /\
  fst (run true ROOT req sample_world) = inr (sendJson 200 JOk) /\
  w_fs (snd (run true ROOT req sample_world)) !! key_of target = None /\
  fst (run true ROOT (mk_request "GET" "/api/workspace" [("path", "../ws-evil")] None [])
         sample_world)
    = inr (sendJson 200 (JFiles [{| fe_name := js "secret.txt"; fe_size := 1;
                                    fe_isDirectory := false |}])) /\
  fst (run true ROOT (mk_request "GET" "/api/workspace" [("path", "../../etc/passwd")] None [])
         sample_world) = inr forbidden.
Proof. vm_compute. repeat split; congruence. Qed.

(** ** C2 *)

(** C2 (counterexample): the parser splits the latin1 view of the body on
    every occurrence of [--X], also inside the file content. The content
    [a--X] (no CRLF before the dashes) is cut there: [report.txt] is written
    empty. *)
Lemma C2_boundary_in_content_cex :
  let content := js "a--X" in
  let w' := snd (run true ROOT (upload_request "X" (multipart_body (js "X") content))
                   sample_world) in
  fst (run true ROOT (upload_request "X" (multipart_body (js "X") content)) sample_world)
    = inr (sendJson 200 JOk) /\
  w_fs w' !! key_of (js "/data/ws/report.txt") = Some (File []) /\
  w_fs w' !! key_of (js "/data/ws/report.txt") <> Some (File content).
Proof. vm_compute. repeat split; congruence. Qed.

(** C2 (amended): take an upload whose boundary [X] is non-empty and has
    no CR, and whose body is one part with file name [report.txt] and a
    content of bytes (0 to 255) that does not contain the delimiter
    [--X]. Then [report.txt] is written under the target directory with
    exactly those bytes, and the answer is 200 [{ ok: true }]. This needs
    the target directory to exist and [report.txt] not to be a directory
    there. Non-text bytes such as 00 01 FF are kept by the latin1 round
    trip. A content that does contain [--X] is cut at the delimiter. *)
Theorem C2_report_bytes_preserved (segs : list jsstr) (req : request) (X content : jsstr)
    (w : world) :
  plain_segs segs ->
  boundary_of (content_type req) = Some X -> X <> [] -> ~ In CR X ->
  concat (chunks req) = multipart_body X content ->
  Forall (fun b => 0 <= b <= 255) content ->
  includes (js "--" ++ X) content = false ->
  w_fs w !! segs = Some Dir ->
  w_fs w !! (segs ++ [js "report.txt"]) <> Some Dir ->
  fst (upload_op (dir_path segs) req w) = inr (sendJson 200 JOk) /\
  w_fs (snd (upload_op (dir_path segs) req w)) =
    <[segs ++ [js "report.txt"] := File content]> (w_fs w).
Proof.
  intros Hs Hb Hne Hcr Hbody Hbytes Hinc Hdir Hnd.
  assert (Hup : upload_op (dir_path segs) req w =
                multipart_ingest (dir_path segs) X (chunks req) w).
  { unfold upload_op. rewrite Hb. destruct X; [congruence | reflexivity]. }
  assert (Hk : plain_segs (segs ++ [js "report.txt"])).
  { apply Forall_app_2; [exact Hs | constructor; [reflexivity | constructor]]. }
  assert (E2 : ingest_part (dir_path segs) (part_prefix ++ content ++ CRLF) w =
               (inr tt, {| w_fs := <[segs ++ [js "report.txt"] := File content]> (w_fs w);
                           w_log := w_log w ++ [OpWriteFile (dir_path (segs ++ [js "report.txt"]))] |})).
  { unfold ingest_part. rewrite part_target_report by exact Hs.
    rewrite latin1_encode_bytes by exact Hbytes.
    apply writeFileSync_new; [exact Hk | destruct segs; discriminate | exact Hnd |].
    rewrite removelast_last. exact Hdir. }
  assert (F : forM_ [[]; part_prefix ++ content ++ CRLF; js "--" ++ CRLF]
                    (ingest_part (dir_path segs)) w =
              (inr tt, {| w_fs := <[segs ++ [js "report.txt"] := File content]> (w_fs w);
                          w_log := w_log w ++ [OpWriteFile (dir_path (segs ++ [js "report.txt"]))] |})).
  { cbn [forM_].
    rewrite (mbind_ok (ingest_part (dir_path segs) []) _ w tt w eq_refl). cbv beta.
    rewrite (mbind_ok _ _ _ _ _ E2). cbv beta. reflexivity. }
  rewrite Hup. unfold multipart_ingest. cbv zeta.
  rewrite Hbody, multipart_parts by assumption.
  rewrite (mbind_ok _ _ _ _ _ F).
  split; reflexivity.
Qed.

Lemma C2_witness :
  plain_segs [js "data"; js "ws"] /\
  boundary_of (content_type (upload_request "X" (multipart_body (js "X") [0; 1; 255])))
    = Some (js "X") /\
  js "X" <> [] /\ ~ In CR (js "X") /\
  concat (chunks (upload_request "X" (multipart_body (js "X") [0; 1; 255])))
    = multipart_body (js "X") [0; 1; 255] /\
  Forall (fun b => 0 <= b <= 255) [0; 1; 255] /\
  includes (js "--" ++ js "X") [0; 1; 255] = false /\
  w_fs sample_world !! [js "data"; js "ws"] = Some Dir /\
  w_fs sample_world !! ([js "data"; js "ws"] ++ [js "report.txt"]) <> Some Dir /\
  (fst (upload_op (dir_path [js "data"; js "ws"])
          (upload_request "X" (multipart_body (js "X") [0; 1; 255])) sample_world)
     = inr (sendJson 200 JOk) /\
   w_fs (snd (upload_op (dir_path [js "data"; js "ws"])
                (upload_request "X" (multipart_body (js "X") [0; 1; 255])) sample_world)) =
     <[[js "data"; js "ws"] ++ [js "report.txt"] := File [0; 1; 255]]> (w_fs sample_world)).
Proof.
  assert (H1 : plain_segs [js "data"; js "ws"])
    by (repeat constructor).
  assert (H2 : boundary_of (content_type (upload_request "X" (multipart_body (js "X") [0; 1; 255])))
                 = Some (js "X")) by (vm_compute; reflexivity).
  assert (H3 : js "X" <> []) by discriminate.
  assert (H4 : ~ In CR (js "X")) by (vm_compute; intros [H|H]; [discriminate | exact H]).
  assert (H5 : concat (chunks (upload_request "X" (multipart_body (js "X") [0; 1; 255])))
                 = multipart_body (js "X") [0; 1; 255]) by (vm_compute; reflexivity).
  assert (H6 : Forall (fun b => 0 <= b <= 255) [0; 1; 255]) by (repeat constructor; lia).
  assert (H7 : includes (js "--" ++ js "X") [0; 1; 255] = false) by (vm_compute; reflexivity).
  assert (H8 : w_fs sample_world !! [js "data"; js "ws"] = Some Dir) by (vm_compute; reflexivity).
  assert (H9 : w_fs sample_world !! ([js "data"; js "ws"] ++ [js "report.txt"]) <> Some Dir)
    by (vm_compute; discriminate).
  do 9 (split; [assumption|]).
  exact (C2_report_bytes_preserved _ _ _ _ _ H1 H2 H3 H4 H5 H6 H7 H8 H9).
Defined.

(** ** C3 *)

(** C3 (code_bug): the text write appends each body chunk to a string
    ([body += chunk]), which decodes every chunk as UTF-8 on its own. The
    text [é] (bytes C3 A9) sent in two chunks is stored as two U+FFFD, and
    the text read returns those instead of [é]. *)
Lemma C3_chunk_split_utf8 :
  let C := [0xE9] in
  let put := mk_request "PUT" "/api/workspace/text/note.txt" [] None [[0xC3]; [0xA9]] in
  let get := mk_request "GET" "/api/workspace/text/note.txt" [] None [] in
  let w1 := snd (run true ROOT put sample_world) in
  utf8_encode C = [0xC3; 0xA9] /\
  fst (run true ROOT put sample_world) = inr (sendJson 200 JOk) /\
  w_fs w1 !! key_of (js "/data/ws/note.txt") = Some (File [0xEF; 0xBF; 0xBD; 0xEF; 0xBF; 0xBD]) /\
  fst (run true ROOT get w1) = inr (sendText 200 [REPLACEMENT; REPLACEMENT]) /\
  fst (run true ROOT get w1) <> inr (sendText 200 C).
Proof. vm_compute. repeat split; congruence. Qed.

(** ** C4 *)

(** C4 (code_bug): the download only tests [fs.existsSync]. For the
    directory [docs] the read stream fails with EISDIR and, with no
    ['error'] listener, the error is thrown instead of a 404; a file is
    served with 200, its bytes and the attachment header. *)
Lemma C4_download_directory :
  w_fs sample_world !! key_of (js "/data/ws/docs") = Some Dir /\
  fst (run true ROOT (mk_request "GET" "/api/workspace/docs" [] None []) sample_world)
    = inl (FsError EISDIR) /\
  fst (run true ROOT (mk_request "GET" "/api/workspace/docs%2Fa.txt" [] None []) sample_world)
    = inr (Handled {| status := 200;
                      headers := [(js "Content-Disposition",
                                   js "attachment; filename=" ++ [QUOTE] ++ js "docs/a.txt" ++ [QUOTE]);
                                  (js "Content-Type", js "application/octet-stream")];
                      body := BBytes [65] |}).
Proof. vm_compute. repeat split. Qed.

(** ** C5 *)

(** C5 (code_bug): the [try] of the text write only covers the listener
    registration. Writing to the directory [docs] throws EISDIR inside the
    ['end'] listener: no 500 response is produced, the error escapes. *)
Lemma C5_write_error_escapes :
  fst (run true ROOT (mk_request "PUT" "/api/workspace/text/docs" [] None [js "hello"])
         sample_world) = inl (FsError EISDIR).
Proof. vm_compute. reflexivity. Qed.

(** ** C6 *)

(** C6 (counterexample): the workspace root is created before the prefix
    check. On a machine where [/data/ws] does not exist yet, a request
    rejected with 403 still creates it. *)
Lemma C6_rejected_request_creates_root :
  let req := mk_request "GET" "/api/workspace" [("path", "../../etc")] None [] in
  fst (run true ROOT req fresh_world) = inr forbidden /\
  w_fs fresh_world !! key_of ROOT = None /\
  w_fs (snd (run true ROOT req fresh_world)) !! key_of ROOT = Some Dir /\
  w_log (snd (run true ROOT req fresh_world)) = [OpExists ROOT; OpMkdir ROOT].
Proof. vm_compute. repeat split. Qed.

(** ** C9 *)

(** C9 (code_bug): download and delete percent-decode the name, the text
    read and write use the raw [subPath]. [my%20notes.txt] downloads the file
    [my notes.txt], the text read of the same name answers 404, and the
    text write creates a file literally named [my%20notes.txt]. *)
Lemma C9_text_routes_not_decoded :
  let w1 := snd (run true ROOT (mk_request "PUT" "/api/workspace/text/my%20notes.txt" [] None
                                 [js "new"]) sample_world) in
  fst (run true ROOT (mk_request "GET" "/api/workspace/my%20notes.txt" [] None []) sample_world)
    = inr (Handled {| status := 200;
                      headers := [(js "Content-Disposition",
                                   js "attachment; filename=" ++ [QUOTE] ++ js "my notes.txt" ++ [QUOTE]);
                                  (js "Content-Type", js "application/octet-stream")];
                      body := BBytes [104; 105] |}) /\
  w_fs sample_world !! key_of (js "/data/ws/my notes.txt") = Some (File [104; 105]) /\
  fst (run true ROOT (mk_request "GET" "/api/workspace/text/my%20notes.txt" [] None [])
         sample_world) = inr not_found /\
  w_fs w1 !! key_of (js "/data/ws/my%20notes.txt") = Some (File (js "new")) /\
  w_fs w1 !! key_of (js "/data/ws/my notes.txt") = Some (File [104; 105]).
Proof. vm_compute. repeat split. Qed.

(** ** C10 *)

(** C10 (code_bug): a part named [sub/a.txt] whose directory [sub] does
    not exist makes [fs.writeFileSync] throw ENOENT in the ['end']
    listener. That listener runs after the [try] block around the upload
    has returned, so its [catch], which answers 500 [Upload failed], is
    not reached: the error escapes and neither 200 nor 500 is sent. *)
Lemma C10_write_failure_no_response :
  fst (run true ROOT (upload_request "X" (file_part (js "X") (js "sub/a.txt") (js "hi") ++
                                         closing (js "X")))
         sample_world) = inl (FsError ENOENT).
Proof. vm_compute. reflexivity. Qed.

(** ** C7 *)

Lemma delete_op_missing (filePath : jsstr) (w : world) :
  w_fs w !! key_of filePath = None ->
  delete_op filePath w =
    (inr (sendJson 200 JOk), {| w_fs := w_fs w; w_log := w_log w ++ [OpExists filePath] |}).
Proof. intros H. cbv [delete_op try_catch mbind existsSync fs_call mret]. cbn. now rewrite H. Qed.

(** C7: deleting a path that does not exist answers 200 [{ ok: true }]
    and leaves the file tree as it was; a second delete does the same. *)
Theorem C7_delete_idempotent (filePath : jsstr) (w : world) :
  w_fs w !! key_of filePath = None ->
  fst (delete_op filePath w) = inr (sendJson 200 JOk) /\
  w_fs (snd (delete_op filePath w)) = w_fs w /\
  fst (delete_op filePath (snd (delete_op filePath w))) = inr (sendJson 200 JOk) /\
  w_fs (snd (delete_op filePath (snd (delete_op filePath w)))) = w_fs w.
Proof.
  intros H. rewrite (delete_op_missing filePath w H). cbn [fst snd w_fs].
  rewrite (delete_op_missing filePath
             {| w_fs := w_fs w; w_log := w_log w ++ [OpExists filePath] |} H).
  cbn [fst snd w_fs]. auto.
Qed.

Lemma C7_witness :
  w_fs sample_world !! key_of (js "/data/ws/missing.txt") = None /\
  fst (delete_op (js "/data/ws/missing.txt") sample_world) = inr (sendJson 200 JOk) /\
  w_fs (snd (delete_op (js "/data/ws/missing.txt") sample_world)) = w_fs sample_world /\
  fst (delete_op (js "/data/ws/missing.txt")
         (snd (delete_op (js "/data/ws/missing.txt") sample_world))) = inr (sendJson 200 JOk) /\
  w_fs (snd (delete_op (js "/data/ws/missing.txt")
               (snd (delete_op (js "/data/ws/missing.txt") sample_world)))) = w_fs sample_world.
Proof.
  assert (H : w_fs sample_world !! key_of (js "/data/ws/missing.txt") = None)
    by (vm_compute; reflexivity).
  split; [exact H | exact (C7_delete_idempotent _ _ H)].
Defined.

(** ** C8 *)

(** C8: deleting a directory removes it and everything below it (every
    key under it is gone, every other key is untouched), answers 200
    [{ ok: true }], and a later listing of the parent directory does not
    include the deleted name. *)
Theorem C8_recursive_delete (segs : list jsstr) (name : jsstr) (w : world) :
  keys_plain (w_fs w) ->
  w_fs w !! segs = Some Dir ->
  w_fs w !! (segs ++ [name]) = Some Dir ->
  fst (delete_op (dir_path (segs ++ [name])) w) = inr (sendJson 200 JOk) /\
  (forall k, (segs ++ [name]) `prefix_of` k ->
     w_fs (snd (delete_op (dir_path (segs ++ [name])) w)) !! k = None) /\
  (forall k, ~ (segs ++ [name]) `prefix_of` k ->
     w_fs (snd (delete_op (dir_path (segs ++ [name])) w)) !! k = w_fs w !! k) /\
  exists files,
    fst (list_op (dir_path segs) (snd (delete_op (dir_path (segs ++ [name])) w)))
      = inr (sendJson 200 (JFiles files)) /\
    name ∉ map fe_name files.
Proof.
  intros Hm Hp Hd.
  assert (Hk : key_of (dir_path (segs ++ [name])) = segs ++ [name])
    by exact (key_of_dir_path _ (keys_plain_at _ _ _ Hm Hd)).
  destruct (delete_op_dir (dir_path (segs ++ [name])) w) as [Hr Hw];
    [rewrite Hk; exact Hd|].
  rewrite Hk in Hw.
  set (w1 := snd (delete_op (dir_path (segs ++ [name])) w)) in *.
  assert (Hin : forall k, (segs ++ [name]) `prefix_of` k -> w_fs w1 !! k = None).
  { intros k Hpk. rewrite Hw. by apply remove_tree_lookup_in. }
  assert (Hout : forall k, ~ (segs ++ [name]) `prefix_of` k -> w_fs w1 !! k = w_fs w !! k).
  { intros k Hpk. rewrite Hw. by apply remove_tree_lookup_out. }
  split; [exact Hr|]. split; [exact Hin|]. split; [exact Hout|].
  assert (Hseg : ~ (segs ++ [name]) `prefix_of` segs).
  { intros Hpre. apply prefix_length in Hpre. rewrite length_app in Hpre. simpl in Hpre. lia. }
  destruct (list_op_dir segs w1) as (files & Hl & Hf).
  - rewrite Hw. apply remove_tree_keys_plain, Hm.
  - rewrite Hout by exact Hseg. exact Hp.
  - exists files. split; [exact Hl|].
    intros Hn. apply list_elem_of_fmap in Hn as (f & Hfn & Hfin).
    apply Hf in Hfin. rewrite <- Hfn in Hfin.
    apply elem_of_children in Hfin as [v Hv].
    rewrite Hin in Hv; [discriminate | reflexivity].
Qed.

Lemma C8_witness :
  keys_plain (w_fs sample_world) /\
  w_fs sample_world !! [js "data"; js "ws"] = Some Dir /\
  w_fs sample_world !! ([js "data"; js "ws"] ++ [js "docs"]) = Some Dir /\
  (fst (delete_op (dir_path ([js "data"; js "ws"] ++ [js "docs"])) sample_world)
     = inr (sendJson 200 JOk) /\
   (forall k, ([js "data"; js "ws"] ++ [js "docs"]) `prefix_of` k ->
      w_fs (snd (delete_op (dir_path ([js "data"; js "ws"] ++ [js "docs"])) sample_world))
        !! k = None) /\
   (forall k, ~ ([js "data"; js "ws"] ++ [js "docs"]) `prefix_of` k ->
      w_fs (snd (delete_op (dir_path ([js "data"; js "ws"] ++ [js "docs"])) sample_world))
        !! k = w_fs sample_world !! k) /\
   exists files,
     fst (list_op (dir_path [js "data"; js "ws"])
            (snd (delete_op (dir_path ([js "data"; js "ws"] ++ [js "docs"])) sample_world)))
       = inr (sendJson 200 (JFiles files)) /\
     js "docs" ∉ map fe_name files).
Proof.
  assert (H1 : keys_plain (w_fs sample_world))
    by (apply (bool_decide_unpack _); vm_compute; reflexivity).
  assert (H2 : w_fs sample_world !! [js "data"; js "ws"] = Some Dir)
    by (vm_compute; reflexivity).
  assert (H3 : w_fs sample_world !! ([js "data"; js "ws"] ++ [js "docs"]) = Some Dir)
    by (vm_compute; reflexivity).
  split; [exact H1|]. split; [exact H2|]. split; [exact H3|].
  exact (C8_recursive_delete _ _ _ H1 H2 H3).
Defined.

(** ** C6 *)

Lemma ensure_root_present (root : jsstr) (w : world) :
  is_Some (w_fs w !! key_of root) ->
  ensure_root root w = (inr tt, {| w_fs := w_fs w; w_log := w_log w ++ [OpExists root] |}).
Proof.
  intros [n Hn]. cbv [ensure_root existsSync mbind fs_call mret]. cbn [w_fs w_log].
  rewrite Hn. reflexivity.
Qed.

(** A request that fails one of the prefix checks is handled as the root
    prelude followed by the [Forbidden] answer. *)
Lemma handler_forbidden_after_prelude (root : jsstr) (req : request) (w : world) :
  let subPath := strip_leading_slashes (drop (length API) (pathname req)) in
  let workspaceDir := path_join root (match search_param req (js "path") with
                                      | Some q => q | None => [] end) in
  is_prefix API (pathname req) = true ->
  (is_prefix root workspaceDir = false \/
   (subPath <> [] /\
    exists fileName, decodeURIComponent subPath = Some fileName /\
      (is_prefix root (path_join workspaceDir fileName) = false \/
       (is_prefix root (path_join workspaceDir fileName) = true /\
        includes (js "/text/") (pathname req) = true /\
        (method req = GET \/ method req = PUT) /\
        is_prefix workspaceDir (path_join workspaceDir (strip_text_prefix subPath)) = false)))) ->
  handleWorkspaceHttpRequest true root req w = (do_ ensure_root root ; mret forbidden) w.
Proof.
  intros subPath wd Hapi Hfail.
  unfold handleWorkspaceHttpRequest. rewrite Hapi. cbn [negb].
  unfold mbind at 1 3. destruct (ensure_root root w) as [[e|u] w1]; [reflexivity|].
  cbv beta zeta. fold subPath. fold wd.
  destruct Hfail as [Ha | (Hsp & fn & Hdec & Hc)]; [rewrite Ha; reflexivity|].
  destruct (is_prefix root wd); [|reflexivity]. cbn [negb].
  assert (Hj : jseqb subPath [] = false) by (destruct subPath; [congruence|reflexivity]).
  rewrite Hj. cbn [andb].
  assert (Hf : file_ops root wd subPath req w1 = (inr (Some forbidden), w1)).
  { unfold file_ops. rewrite Hdec. cbv zeta.
    destruct Hc as [Hfp | (Hfp & Ht & Hm & Htp)]; [rewrite Hfp; reflexivity|].
    rewrite Hfp, Ht. cbn [negb].
    destruct Hm as [Hm | Hm]; rewrite Hm.
    - assert (E1 : jseqb GET GET = true) by reflexivity.
      assert (E2 : jseqb GET DELETE = false) by reflexivity.
      rewrite E1, E2. cbn [andb negb].
      unfold text_read_op. cbv zeta. rewrite Htp. reflexivity.
    - assert (E1 : jseqb PUT GET = false) by reflexivity.
      assert (E2 : jseqb PUT DELETE = false) by reflexivity.
      assert (E3 : jseqb PUT PUT = true) by reflexivity.
      rewrite E1, E2, E3. cbn [andb negb].
      unfold text_write_op. cbv zeta. rewrite Htp. reflexivity. }
  rewrite (mbind_ok _ _ _ _ _ Hf). reflexivity.
Qed.

(** Every 403 the handler gives is the [Forbidden] error, and the world
    ends as the root prelude leaves it. *)
Lemma handler_403_after_prelude (authorized : bool) (root : jsstr) (req : request)
    (w : world) (r : response) (w' : world) :
  handleWorkspaceHttpRequest authorized root req w = (inr (Handled r), w') ->
  status r = 403 ->
  Handled r = forbidden /\ w' = snd (ensure_root root w) /\
  (is_Some (w_fs w !! key_of root) ->
     w_fs w' = w_fs w /\ w_log w' = w_log w ++ [OpExists root]).
Proof.
  intros H Hs.
  assert (Hi : is403 (Handled r)) by exact Hs.
  assert (Hpre : exists a w1, ensure_root root w = (inr a, w1) /\
                   Handled r = forbidden /\ w' = w1).
  { unfold handleWorkspaceHttpRequest in H. cbv zeta in H. minv;
      first [ exfalso; leaf403
            | exfalso; eapply upload_op_no403; eassumption
            | eexists _, _; split; [eassumption|];
              first [ leaf403
                    | eapply list_op_rejects_cleanly; eassumption
                    | eapply file_ops_rejects_cleanly; eassumption ] ]. }
  destruct Hpre as (a & w1 & He & Hf & ->).
  split; [exact Hf|]. split; [rewrite He; reflexivity|].
  intros Hn. rewrite (ensure_root_present root w Hn) in He.
  injection He as _ <-. auto.
Qed.

(** C6 (amended): an authorized request on [/api/workspace] whose path
    fails one of the prefix checks (the [workspaceDir] check, the
    [filePath] check of a file route, or the check of the text read or
    write) is answered 403 [Forbidden], after the prelude that ensures the
    root exists: the handler runs exactly that prelude and then answers,
    so the world ends as the prelude leaves it; when the root already
    exists the file tree is unchanged and the only access is the
    existence check of the root. Conversely, every 403 the handler gives
    is that [Forbidden] error, with the world as the prelude leaves it. *)
Theorem C6_rejection_after_root_prelude (root : jsstr) (req : request) (w : world) :
  let subPath := strip_leading_slashes (drop (length API) (pathname req)) in
  let workspaceDir := path_join root (match search_param req (js "path") with
                                      | Some q => q | None => [] end) in
  is_prefix API (pathname req) = true ->
  (is_prefix root workspaceDir = false \/
   (subPath <> [] /\
    exists fileName, decodeURIComponent subPath = Some fileName /\
      (is_prefix root (path_join workspaceDir fileName) = false \/
       (is_prefix root (path_join workspaceDir fileName) = true /\
        includes (js "/text/") (pathname req) = true /\
        (method req = GET \/ method req = PUT) /\
        is_prefix workspaceDir (path_join workspaceDir (strip_text_prefix subPath)) = false)))) ->
  handleWorkspaceHttpRequest true root req w = (do_ ensure_root root ; mret forbidden) w /\
  (forall u w1, ensure_root root w = (inr u, w1) ->
     handleWorkspaceHttpRequest true root req w = (inr forbidden, w1)) /\
  (is_Some (w_fs w !! key_of root) ->
     handleWorkspaceHttpRequest true root req w =
       (inr forbidden, {| w_fs := w_fs w; w_log := w_log w ++ [OpExists root] |})) /\
  (forall (authorized : bool) (req' : request) (w0 : world) (r : response) (w' : world),
     handleWorkspaceHttpRequest authorized root req' w0 = (inr (Handled r), w') ->
     status r = 403 ->
     Handled r = forbidden /\ w' = snd (ensure_root root w0) /\
     (is_Some (w_fs w0 !! key_of root) ->
        w_fs w' = w_fs w0 /\ w_log w' = w_log w0 ++ [OpExists root])).
Proof.
  intros subPath wd Hapi Hfail.
  pose proof (handler_forbidden_after_prelude root req w Hapi Hfail) as H.
  split; [exact H|]. split.
  - intros u w1 He. rewrite H. unfold mbind. rewrite He. reflexivity.
  - split; [|intros a; exact (handler_403_after_prelude a root)].
    intros Hn. rewrite H. unfold mbind. rewrite (ensure_root_present root w Hn). reflexivity.
Qed.

Lemma C6_witness :
  is_prefix API (pathname (mk_request "GET" "/api/workspace/docs%2Fa.txt"
                             [("path", "../../etc")] None [])) = true /\
  is_prefix ROOT (path_join ROOT (js "../../etc")) = false /\
  run true ROOT (mk_request "GET" "/api/workspace/docs%2Fa.txt" [("path", "../../etc")] None [])
    sample_world = (inr forbidden, snd (ensure_root ROOT sample_world)).
Proof.
  assert (H1 : is_prefix API (pathname (mk_request "GET" "/api/workspace/docs%2Fa.txt"
                                          [("path", "../../etc")] None [])) = true)
    by (vm_compute; reflexivity).
  assert (H2 : is_prefix ROOT (path_join ROOT (js "../../etc")) = false)
    by (vm_compute; reflexivity).
  split; [exact H1|]. split; [exact H2|].
  destruct (C6_rejection_after_root_prelude ROOT
              (mk_request "GET" "/api/workspace/docs%2Fa.txt" [("path", "../../etc")] None [])
              sample_world H1 (or_introl H2)) as (_ & H & _).
  unfold run. apply (H tt). vm_compute. reflexivity.
Defined.

(* ================================================================== *)
(** * Further properties of the handler and of the Control UI's client *)

(** X1: [Buffer.from(s, "utf8")] read back with [toString("utf8")] (the
    text write and the text read) gives back every well-formed string. *)
Theorem utf8_round_trip (s : jsstr) :
  wf_utf16 s = true -> utf8_decode (utf8_encode s) = s.
Proof. exact (utf8_decode_encode s). Qed.

Lemma utf8_round_trip_witness :
  wf_utf16 [104; 233; 0xD83D; 0xDE00] = true /\
  utf8_decode (utf8_encode [104; 233; 0xD83D; 0xDE00]) = [104; 233; 0xD83D; 0xDE00].
Proof.
  assert (H : wf_utf16 [104; 233; 0xD83D; 0xDE00] = true) by (vm_compute; reflexivity).
  split; [exact H | exact (utf8_round_trip _ H)].
Defined.

(** X2: the UTF-8 decoding of any bytes (what the text read answers) is a
    well-formed string: ill-formed input becomes U+FFFD, never a lone
    surrogate. *)
Theorem utf8_decode_well_formed (bs : bytes) :
  Forall (fun b => 0 <= b <= 255) bs -> wf_utf16 (utf8_decode bs) = true.
Proof. intros Hbs. apply utf8_go_wf; [exact Hbs | left; reflexivity]. Qed.

Lemma utf8_decode_well_formed_witness :
  Forall (fun b => 0 <= b <= 255) [0xC3; 0xFF; 0xED; 0xA0; 0x80; 0xF0; 0x9F; 0x41] /\
  wf_utf16 (utf8_decode [0xC3; 0xFF; 0xED; 0xA0; 0x80; 0xF0; 0x9F; 0x41]) = true.
Proof.
  assert (H : Forall (fun b => 0 <= b <= 255) [0xC3; 0xFF; 0xED; 0xA0; 0x80; 0xF0; 0x9F; 0x41])
    by (repeat constructor; lia).
  split; [exact H | exact (utf8_decode_well_formed _ H)].
Defined.

(** X3: [encodeURIComponent] (the UI's file URLs) succeeds on every
    well-formed string, its result holds only unreserved characters, [%]
    and upper-case hexadecimal digits, and the handler's
    [decodeURIComponent] gives the string back. *)
Theorem encodeURIComponent_round_trip (s : jsstr) :
  wf_utf16 s = true ->
  exists e, encodeURIComponent s = Some e /\ decodeURIComponent e = Some s /\
    Forall (fun c => uri_unreserved c = true \/ c = 37 \/ 48 <= c <= 57 \/ 65 <= c <= 70) e.
Proof. exact (encode_uri_decode s). Qed.

Lemma encodeURIComponent_round_trip_witness :
  wf_utf16 (js "docs/my notes.txt" ++ [233]) = true /\
  exists e, encodeURIComponent (js "docs/my notes.txt" ++ [233]) = Some e /\
    decodeURIComponent e = Some (js "docs/my notes.txt" ++ [233]) /\
    Forall (fun c => uri_unreserved c = true \/ c = 37 \/ 48 <= c <= 57 \/ 65 <= c <= 70) e.
Proof.
  assert (H : wf_utf16 (js "docs/my notes.txt" ++ [233]) = true) by (vm_compute; reflexivity).
  split; [exact H | exact (encodeURIComponent_round_trip _ H)].
Defined.

(** X4: in a folder [cur] of the UI, [deleteFromWorkspace] and
    [downloadFromWorkspace] of the entry [name] send [cur/name] as the
    path segment and [cur] again as [?path]; the handler joins both and acts
    on [root/cur/cur/name], not on [root/cur/name]. *)
Theorem ui_file_ops_double_folder (a : OpenClawApp) (rs cs : list jsstr) (name : jsstr) (w : world) :
  plain_segs rs -> plain_segs cs ->
  workspaceCurrentPath a = join_segs cs -> wf_utf16 (join_segs cs) = true ->
  plain_segb name = true -> wf_utf16 name = true ->
  w_fs w !! rs <> None ->
  let w1 := {| w_fs := w_fs w; w_log := w_log w ++ [OpExists (dir_path rs)] |} in
  let target := dir_path (rs ++ cs ++ cs ++ [name]) in
  (exists req, ui_delete_request a name = Some req /\
     handleWorkspaceHttpRequest true (dir_path rs) req w = delete_op target w1) /\
  (exists req, ui_download_request a name = Some req /\
     handleWorkspaceHttpRequest true (dir_path rs) req w =
       download_op target (join_segs (cs ++ [name])) w1).
Proof.
  intros Hrs Hcs Hcur Hwc Hn Hwn Hr w1 target.
  destruct (ui_segment a cs name Hcs Hcur Hwc Hn Hwn) as (e & He & Hd & Hpe).
  pose proof (plain_segb_spec e Hpe) as (Hne & Hsl & _).
  assert (Hhd : hd_error e <> Some SLASH).
  { destruct e as [|c e']; [discriminate|]. cbn [existsb] in Hsl.
    apply orb_false_iff in Hsl as [Hc _]. cbn. intros E. injection E as ->.
    rewrite Z.eqb_refl in Hc. discriminate. }
  assert (Hfp : path_join (dir_path (rs ++ cs)) (join_segs (cs ++ [name])) = target).
  { unfold target. rewrite path_join_dir_path_segs, <- app_assoc by (auto; apply Forall_app; auto).
    reflexivity. }
  assert (Hpre : is_prefix (dir_path rs) target = true) by apply is_prefix_dir_path_app.
  split.
  - eexists. split; [unfold ui_delete_request, ui_file_request; rewrite He; reflexivity|].
    rewrite (handle_file_route rs cs e); try assumption.
    + unfold file_ops. rewrite Hd. cbv zeta. rewrite Hfp, Hpre. cbn [negb method].
      change (jseqb DELETE GET) with false. change (jseqb DELETE DELETE) with true.
      cbn [andb]. apply mbind_some. reflexivity.
    + cbn [pathname]. rewrite url_path_plain by exact Hpe. reflexivity.
    + apply (query_path_ui a); [reflexivity | assumption..].
  - eexists. split; [unfold ui_download_request, ui_file_request; rewrite He; reflexivity|].
    rewrite (handle_file_route rs cs e); try assumption.
    + unfold file_ops. rewrite Hd. cbv zeta. rewrite Hfp, Hpre. cbn [negb method pathname].
      rewrite url_path_plain by exact Hpe.
      change (SLASH :: join_segs (api_dir ++ [e])) with (API ++ SLASH :: e).
      rewrite not_text_route by exact Hsl.
      change (jseqb GET GET) with true. cbn [andb negb].
      apply mbind_some. reflexivity.
    + cbn [pathname]. rewrite url_path_plain by exact Hpe. reflexivity.
    + apply (query_path_ui a); [reflexivity | assumption..].
Qed.

Lemma ui_file_ops_double_folder_witness :
  plain_segs [js "data"; js "ws"] /\ plain_segs [js "docs"] /\
  workspaceCurrentPath sample_app = join_segs [js "docs"] /\
  wf_utf16 (join_segs [js "docs"]) = true /\
  plain_segb (js "a.txt") = true /\ wf_utf16 (js "a.txt") = true /\
  w_fs sample_world !! [js "data"; js "ws"] <> None /\
  (exists req, ui_delete_request sample_app (js "a.txt") = Some req /\
     handleWorkspaceHttpRequest true (dir_path [js "data"; js "ws"]) req sample_world =
       delete_op (dir_path ([js "data"; js "ws"] ++ [js "docs"] ++ [js "docs"] ++ [js "a.txt"]))
         {| w_fs := w_fs sample_world;
            w_log := w_log sample_world ++ [OpExists (dir_path [js "data"; js "ws"])] |}) /\
  (exists req, ui_download_request sample_app (js "a.txt") = Some req /\
     handleWorkspaceHttpRequest true (dir_path [js "data"; js "ws"]) req sample_world =
       download_op (dir_path ([js "data"; js "ws"] ++ [js "docs"] ++ [js "docs"] ++ [js "a.txt"]))
         (join_segs ([js "docs"] ++ [js "a.txt"]))
         {| w_fs := w_fs sample_world;
            w_log := w_log sample_world ++ [OpExists (dir_path [js "data"; js "ws"])] |}).
Proof.
  assert (H1 : plain_segs [js "data"; js "ws"]) by (repeat constructor).
  assert (H2 : plain_segs [js "docs"]) by (repeat constructor).
  assert (H3 : workspaceCurrentPath sample_app = join_segs [js "docs"]) by reflexivity.
  assert (H4 : wf_utf16 (join_segs [js "docs"]) = true) by (vm_compute; reflexivity).
  assert (H5 : plain_segb (js "a.txt") = true) by (vm_compute; reflexivity).
  assert (H6 : wf_utf16 (js "a.txt") = true) by (vm_compute; reflexivity).
  assert (H7 : w_fs sample_world !! [js "data"; js "ws"] <> None) by (vm_compute; discriminate).
  do 7 (split; [assumption|]).
  exact (ui_file_ops_double_folder sample_app _ _ _ sample_world H1 H2 H3 H4 H5 H6 H7).
Defined.

(** X5: in a folder [cur] of the UI, [saveInWorkspace] of a well-formed
    text [concat pieces] under the name [name], then [editInWorkspace] of
    [name], answers 200 to both and shows the saved text, whenever the
    UTF-8 bytes of the text reach the server in chunks that each hold
    whole characters (the chunk [utf8_encode p] for each piece [p]; the
    chunks together are the UTF-8 encoding of the text). The file is
    stored under the still-encoded name [encodeURIComponent(cur/name)] in
    [root/cur]. *)
Theorem ui_save_then_edit (a : OpenClawApp) (rs cs : list jsstr) (name : jsstr)
    (pieces : list jsstr) (e : jsstr) (w : world) :
  plain_segs rs -> plain_segs cs ->
  workspaceCurrentPath a = join_segs cs -> wf_utf16 (join_segs cs) = true ->
  plain_segb name = true -> wf_utf16 name = true ->
  Forall (fun p => wf_utf16 p = true) pieces ->
  w_fs w !! rs <> None -> w_fs w !! (rs ++ cs) = Some Dir ->
  encodeURIComponent (fullPath a name) = Some e ->
  w_fs w !! (rs ++ cs ++ [e]) <> Some Dir ->
  exists save edit,
    ui_save_request a name (map utf8_encode pieces) = Some save /\
    ui_edit_request a name = Some edit /\
    concat (map utf8_encode pieces) = utf8_encode (concat pieces) /\
    fst (handleWorkspaceHttpRequest true (dir_path rs) save w) = inr (sendJson 200 JOk) /\
    w_fs (snd (handleWorkspaceHttpRequest true (dir_path rs) save w)) =
      <[rs ++ cs ++ [e] := File (utf8_encode (concat pieces))]> (w_fs w) /\
    fst (handleWorkspaceHttpRequest true (dir_path rs)
           edit (snd (handleWorkspaceHttpRequest true (dir_path rs) save w)))
      = inr (sendText 200 (concat pieces)).
Proof.
  intros Hrs Hcs Hcur Hwc Hn Hwn Hps Hr Hdir He Hnd.
  destruct (utf8_encode_concat pieces Hps) as [Hwt Henc].
  set (content := concat pieces) in *.
  destruct (ui_segment a cs name Hcs Hcur Hwc Hn Hwn) as (e' & He' & Hd & Hpe).
  rewrite He in He'. injection He' as <-.
  assert (Hfn : plain_segs (cs ++ [name])) by (apply Forall_app; auto).
  assert (Hk : plain_segs (rs ++ cs ++ [e])) by (repeat (apply Forall_app; split); auto).
  destruct (text_ops_path rs cs e Hrs Hcs Hpe) as [Hpath Hpre].
  set (save := {| method := PUT; pathname := url_path text_dir e;
                  query := query_on_wire (addAuthParams a);
                  content_type := Some (js "text/plain;charset=UTF-8");
                  chunks := map utf8_encode pieces |}).
  set (edit := {| method := GET; pathname := url_path text_dir e;
                  query := query_on_wire (addAuthParams a);
                  content_type := None; chunks := [] |}).
  assert (Hpn : url_path text_dir e = API ++ SLASH :: (js "text/" ++ e))
    by (rewrite url_path_plain by exact Hpe; apply text_pathname).
  assert (Hsp : js "text/" ++ e <> []) by discriminate.
  assert (Hhd : hd_error (js "text/" ++ e) <> Some SLASH) by (intros E; vm_compute in E; discriminate).
  set (w1 := {| w_fs := w_fs w; w_log := w_log w ++ [OpExists (dir_path rs)] |}).
  set (w2 := {| w_fs := <[rs ++ cs ++ [e] := File (utf8_encode content)]> (w_fs w1);
                w_log := w_log w1 ++ [OpWriteFile (dir_path (rs ++ cs ++ [e]))] |}).
  assert (Hsave : handleWorkspaceHttpRequest true (dir_path rs) save w = (inr (sendJson 200 JOk), w2)).
  { rewrite (handle_file_route rs cs (js "text/" ++ e)); try assumption;
      [| apply (query_path_ui a); [reflexivity | assumption..]].
    rewrite (file_ops_text rs cs (cs ++ [name]) e) by (auto; destruct cs; discriminate).
    unfold save. cbn [method chunks]. change (jseqb PUT DELETE) with false. change (jseqb PUT GET) with false.
    change (jseqb PUT PUT) with true. cbv iota.
    rewrite mbind_some by reflexivity. unfold text_write_op. cbv zeta. rewrite Hpath, Hpre. cbn [negb].
    unfold try_catch, mbind at 1, mret at 1.
    rewrite (foldl_decode_pieces pieces [] Hps). cbn [app].
    rewrite (mbind_ok _ _ _ _ _ (writeFileSync_new (rs ++ cs ++ [e]) (utf8_encode content) w1 Hk
               ltac:(intros E; apply (f_equal length) in E; rewrite !length_app in E; simpl in E; lia) Hnd ltac:(rewrite app_assoc, removelast_last; exact Hdir))).
    reflexivity. }
  exists save, edit. split; [unfold ui_save_request, ui_file_request; rewrite He; reflexivity|].
  split; [unfold ui_edit_request, ui_file_request; rewrite He; reflexivity|].
  split; [symmetry; exact Henc|].
  rewrite Hsave. cbn [fst snd]. split; [reflexivity|]. split; [reflexivity|].
  assert (Hne : rs ++ cs ++ [e] <> rs).
  { intros E. apply (f_equal length) in E. rewrite !length_app in E. simpl in E. lia. }
  rewrite (handle_file_route rs cs (js "text/" ++ e)); try assumption;
    [| unfold w2, w1; cbn [w_fs]; rewrite lookup_insert_ne by congruence; exact Hr
     | apply (query_path_ui a); [reflexivity | assumption..]].
  rewrite (file_ops_text rs cs (cs ++ [name]) e) by (auto; destruct cs; discriminate).
  unfold edit. cbn [method]. change (jseqb GET DELETE) with false. change (jseqb GET GET) with true. cbv iota.
  rewrite mbind_some by reflexivity.
  unfold text_read_op. cbv zeta. rewrite Hpath, Hpre. cbn [negb].
  assert (Hl : w_fs w2 !! key_of (dir_path (rs ++ cs ++ [e])) = Some (File (utf8_encode content))).
  { unfold w2, w1; cbn [w_fs]. rewrite key_of_dir_path by exact Hk. apply lookup_insert_eq. }
  unfold try_catch.
  rewrite (mbind_ok _ _ _ _ _ (existsSync_some _ {| w_fs := w_fs w2; w_log := w_log w2 ++ [OpExists (dir_path rs)] |} _ Hl)).
  cbn [negb].
  erewrite mbind_ok by (apply readFileSync_file; exact Hl).
  cbv [mret]. rewrite utf8_decode_encode by exact Hwt. reflexivity.
Qed.

Lemma ui_save_then_edit_witness :
  plain_segs [js "data"; js "ws"] /\ plain_segs [js "docs"] /\
  workspaceCurrentPath sample_app = join_segs [js "docs"] /\
  wf_utf16 (join_segs [js "docs"]) = true /\
  plain_segb (js "b.txt") = true /\ wf_utf16 (js "b.txt") = true /\
  Forall (fun p => wf_utf16 p = true) [[104]; [233]; [0xD83D; 0xDE00]] /\
  w_fs sample_world !! [js "data"; js "ws"] <> None /\
  w_fs sample_world !! ([js "data"; js "ws"] ++ [js "docs"]) = Some Dir /\
  encodeURIComponent (fullPath sample_app (js "b.txt")) = Some (js "docs%2Fb.txt") /\
  w_fs sample_world !! ([js "data"; js "ws"] ++ [js "docs"] ++ [js "docs%2Fb.txt"]) <> Some Dir /\
  exists save edit,
    ui_save_request sample_app (js "b.txt")
      (map utf8_encode [[104]; [233]; [0xD83D; 0xDE00]]) = Some save /\
    ui_edit_request sample_app (js "b.txt") = Some edit /\
    concat (map utf8_encode [[104]; [233]; [0xD83D; 0xDE00]])
      = utf8_encode (concat [[104]; [233]; [0xD83D; 0xDE00]]) /\
    fst (handleWorkspaceHttpRequest true (dir_path [js "data"; js "ws"]) save sample_world)
      = inr (sendJson 200 JOk) /\
    w_fs (snd (handleWorkspaceHttpRequest true (dir_path [js "data"; js "ws"]) save sample_world)) =
      <[[js "data"; js "ws"] ++ [js "docs"] ++ [js "docs%2Fb.txt"] :=
          File (utf8_encode (concat [[104]; [233]; [0xD83D; 0xDE00]]))]>
        (w_fs sample_world) /\
    fst (handleWorkspaceHttpRequest true (dir_path [js "data"; js "ws"]) edit
           (snd (handleWorkspaceHttpRequest true (dir_path [js "data"; js "ws"]) save sample_world)))
      = inr (sendText 200 (concat [[104]; [233]; [0xD83D; 0xDE00]])).
Proof.
  assert (H1 : plain_segs [js "data"; js "ws"]) by (repeat constructor).
  assert (H2 : plain_segs [js "docs"]) by (repeat constructor).
  assert (H3 : workspaceCurrentPath sample_app = join_segs [js "docs"]) by reflexivity.
  assert (H4 : wf_utf16 (join_segs [js "docs"]) = true) by (vm_compute; reflexivity).
  assert (H5 : plain_segb (js "b.txt") = true) by (vm_compute; reflexivity).
  assert (H6 : wf_utf16 (js "b.txt") = true) by (vm_compute; reflexivity).
  assert (H7 : Forall (fun p => wf_utf16 p = true) [[104]; [233]; [0xD83D; 0xDE00]])
    by (repeat constructor).
  assert (H8 : w_fs sample_world !! [js "data"; js "ws"] <> None) by (vm_compute; discriminate).
  assert (H9 : w_fs sample_world !! ([js "data"; js "ws"] ++ [js "docs"]) = Some Dir)
    by (vm_compute; reflexivity).
  assert (H10 : encodeURIComponent (fullPath sample_app (js "b.txt")) = Some (js "docs%2Fb.txt"))
    by (vm_compute; reflexivity).
  assert (H11 : w_fs sample_world !! ([js "data"; js "ws"] ++ [js "docs"] ++ [js "docs%2Fb.txt"])
                  <> Some Dir) by (vm_compute; discriminate).
  do 11 (split; [assumption|]).
  exact (ui_save_then_edit sample_app _ _ _ _ _ sample_world H1 H2 H3 H4 H5 H6 H7 H8 H9 H10 H11).
Defined.

(** X6: [loadWorkspace] in a folder [cur] that is a directory of the root
    answers 200 with one entry per child of [root/cur], in some order (the
    ones whose name starts with "." left out): the names are distinct and
    are exactly the children's names; a file's entry has the file's length
    as its size and is not a directory, a directory's entry is a
    directory. The tree is left unchanged. *)
Theorem ui_list_folder (a : OpenClawApp) (rs cs : list jsstr) (w : world) :
  workspaceCurrentPath a = join_segs cs -> wf_utf16 (join_segs cs) = true ->
  keys_plain (w_fs w) -> w_fs w !! rs <> None -> w_fs w !! (rs ++ cs) = Some Dir ->
  exists files,
    fst (handleWorkspaceHttpRequest true (dir_path rs) (ui_list_request a) w) =
      inr (sendJson 200 (JFiles (filter (fun f => ~ is_prefix (js ".") (fe_name f) = true) files))) /\
    w_fs (snd (handleWorkspaceHttpRequest true (dir_path rs) (ui_list_request a) w)) = w_fs w /\
    NoDup (map fe_name files) /\
    (forall n, n ∈ map fe_name files <-> is_Some (w_fs w !! (rs ++ cs ++ [n]))) /\
    Forall (fun f => match w_fs w !! (rs ++ cs ++ [fe_name f]) with
                     | Some (File d) => fe_size f = Z.of_nat (length d) /\ fe_isDirectory f = false
                     | Some Dir => fe_isDirectory f = true
                     | None => False
                     end) files.
Proof.
  intros Hcur Hwc Hm Hr Hd.
  pose proof (keys_plain_at _ _ _ Hm Hd) as Hp. apply Forall_app in Hp as [Hrs Hcs].
  rewrite (handle_list_route rs cs (ui_list_request a) w Hrs Hcs Hr eq_refl eq_refl
             (query_path_ui a (ui_list_request a) cs eq_refl Hcur Hwc)).
  set (w1 := {| w_fs := w_fs w; w_log := w_log w ++ [OpExists (dir_path rs)] |}).
  destruct (list_op_entries (rs ++ cs) w1 Hm Hd) as (files & w' & E & Hw' & Hn & Hf).
  exists files. rewrite E. cbn [fst snd]. split; [reflexivity|]. split; [exact Hw'|].
  unfold w1 in Hn, Hf. cbn [w_fs] in Hn, Hf. rewrite Hn. split; [apply NoDup_children|]. split.
  - intros n. rewrite elem_of_children, <- app_assoc. split.
    + intros [v Hv]. exists v. exact Hv.
    + intros [v Hv]. exists v. exact Hv.
  - eapply Forall_impl; [exact Hf|]. intros f Hx. cbv beta in *. rewrite <- app_assoc in Hx.
    destruct (w_fs w !! (rs ++ cs ++ [fe_name f])) as [[d|]|]; tauto.
Qed.

Lemma ui_list_folder_witness :
  workspaceCurrentPath sample_app = join_segs [js "docs"] /\
  wf_utf16 (join_segs [js "docs"]) = true /\
  keys_plain (w_fs sample_world) /\
  w_fs sample_world !! [js "data"; js "ws"] <> None /\
  w_fs sample_world !! ([js "data"; js "ws"] ++ [js "docs"]) = Some Dir /\
  exists files,
    fst (handleWorkspaceHttpRequest true (dir_path [js "data"; js "ws"]) (ui_list_request sample_app)
           sample_world) =
      inr (sendJson 200 (JFiles (filter (fun f => ~ is_prefix (js ".") (fe_name f) = true) files))) /\
    w_fs (snd (handleWorkspaceHttpRequest true (dir_path [js "data"; js "ws"])
                 (ui_list_request sample_app) sample_world)) = w_fs sample_world /\
    NoDup (map fe_name files) /\
    (forall n, n ∈ map fe_name files <->
               is_Some (w_fs sample_world !! ([js "data"; js "ws"] ++ [js "docs"] ++ [n]))) /\
    Forall (fun f => match w_fs sample_world !! ([js "data"; js "ws"] ++ [js "docs"] ++ [fe_name f]) with
                     | Some (File d) => fe_size f = Z.of_nat (length d) /\ fe_isDirectory f = false
                     | Some Dir => fe_isDirectory f = true
                     | None => False
                     end) files.
Proof.
  assert (H1 : workspaceCurrentPath sample_app = join_segs [js "docs"]) by reflexivity.
  assert (H2 : wf_utf16 (join_segs [js "docs"]) = true) by (vm_compute; reflexivity).
  assert (H3 : keys_plain (w_fs sample_world))
    by (apply (bool_decide_unpack _); vm_compute; reflexivity).
  assert (H4 : w_fs sample_world !! [js "data"; js "ws"] <> None) by (vm_compute; discriminate).
  assert (H5 : w_fs sample_world !! ([js "data"; js "ws"] ++ [js "docs"]) = Some Dir)
    by (vm_compute; reflexivity).
  do 5 (split; [assumption|]).
  exact (ui_list_folder sample_app _ _ sample_world H1 H2 H3 H4 H5).
Defined.

(** X7: [loadWorkspace] in a folder [cur] that is missing or is a file
    answers 500 "Failed to list workspace"; the tree is unchanged and the
    only calls are the root check and the failed [readdirSync]. *)
Theorem ui_list_not_folder (a : OpenClawApp) (rs cs : list jsstr) (w : world) :
  plain_segs rs -> plain_segs cs ->
  workspaceCurrentPath a = join_segs cs -> wf_utf16 (join_segs cs) = true ->
  w_fs w !! rs <> None -> w_fs w !! (rs ++ cs) <> Some Dir ->
  handleWorkspaceHttpRequest true (dir_path rs) (ui_list_request a) w =
    (inr (sendJson 500 (JError (js "Failed to list workspace"))),
     {| w_fs := w_fs w;
        w_log := w_log w ++ [OpExists (dir_path rs); OpReaddir (dir_path (rs ++ cs))] |}).
Proof.
  intros Hrs Hcs Hcur Hwc Hr Hd.
  rewrite (handle_list_route rs cs (ui_list_request a) w Hrs Hcs Hr eq_refl eq_refl
             (query_path_ui a (ui_list_request a) cs eq_refl Hcur Hwc)).
  rewrite list_op_not_dir.
  - cbn [w_fs w_log]. rewrite <- app_assoc. reflexivity.
  - cbn [w_fs]. rewrite key_of_dir_path by (apply Forall_app; auto). exact Hd.
Qed.

Lemma ui_list_not_folder_witness :
  plain_segs [js "data"; js "ws"] /\ plain_segs [js "gone"] /\
  workspaceCurrentPath sample_app_gone = join_segs [js "gone"] /\
  wf_utf16 (join_segs [js "gone"]) = true /\
  w_fs sample_world !! [js "data"; js "ws"] <> None /\
  w_fs sample_world !! ([js "data"; js "ws"] ++ [js "gone"]) <> Some Dir /\
  handleWorkspaceHttpRequest true (dir_path [js "data"; js "ws"]) (ui_list_request sample_app_gone)
    sample_world =
    (inr (sendJson 500 (JError (js "Failed to list workspace"))),
     {| w_fs := w_fs sample_world;
        w_log := w_log sample_world ++ [OpExists (dir_path [js "data"; js "ws"]);
                                        OpReaddir (dir_path ([js "data"; js "ws"] ++ [js "gone"]))] |}).
Proof.
  assert (H1 : plain_segs [js "data"; js "ws"]) by (repeat constructor).
  assert (H2 : plain_segs [js "gone"]) by (repeat constructor).
  assert (H3 : workspaceCurrentPath sample_app_gone = join_segs [js "gone"]) by reflexivity.
  assert (H4 : wf_utf16 (join_segs [js "gone"]) = true) by (vm_compute; reflexivity).
  assert (H5 : w_fs sample_world !! [js "data"; js "ws"] <> None) by (vm_compute; discriminate).
  assert (H6 : w_fs sample_world !! ([js "data"; js "ws"] ++ [js "gone"]) <> Some Dir)
    by (vm_compute; discriminate).
  do 6 (split; [assumption|]).
  exact (ui_list_not_folder sample_app_gone _ _ sample_world H1 H2 H3 H4 H5 H6).
Defined.

(** X10: a file route whose path segment is not valid percent-encoding
    (such as [100%.txt]) makes [decodeURIComponent] throw a [URIError]
    out of the handler, after the root prelude and before any answer; the
    text routes, which use the raw segment, are affected too. *)
Theorem handle_malformed_name (rs cs : list jsstr) (sp : jsstr) (req : request) (w : world) :
  plain_segs rs -> plain_segs cs -> w_fs w !! rs <> None ->
  pathname req = API ++ SLASH :: sp -> sp <> [] -> hd_error sp <> Some SLASH ->
  match search_param req (js "path") with Some q => q | None => [] end = join_segs cs ->
  decodeURIComponent sp = None ->
  handleWorkspaceHttpRequest true (dir_path rs) req w =
    (inl URIError, {| w_fs := w_fs w; w_log := w_log w ++ [OpExists (dir_path rs)] |}).
Proof.
  intros Hrs Hcs Hr Hp Hsp Hhd Hq Hdec.
  rewrite (handle_file_route rs cs sp req w) by assumption.
  unfold mbind at 1, file_ops. rewrite Hdec. reflexivity.
Qed.

Lemma handle_malformed_name_witness :
  plain_segs [js "data"; js "ws"] /\ plain_segs [] /\
  w_fs sample_world !! [js "data"; js "ws"] <> None /\
  pathname (mk_request "GET" "/api/workspace/text/100%.txt" [] None []) =
    API ++ SLASH :: js "text/100%.txt" /\
  js "text/100%.txt" <> [] /\ hd_error (js "text/100%.txt") <> Some SLASH /\
  match search_param (mk_request "GET" "/api/workspace/text/100%.txt" [] None []) (js "path") with
  | Some q => q | None => [] end = join_segs [] /\
  decodeURIComponent (js "text/100%.txt") = None /\
  handleWorkspaceHttpRequest true (dir_path [js "data"; js "ws"])
    (mk_request "GET" "/api/workspace/text/100%.txt" [] None []) sample_world =
    (inl URIError, {| w_fs := w_fs sample_world;
                      w_log := w_log sample_world ++ [OpExists (dir_path [js "data"; js "ws"])] |}).
Proof.
  assert (H1 : plain_segs [js "data"; js "ws"]) by (repeat constructor).
  assert (H2 : plain_segs ([] : list jsstr)) by constructor.
  assert (H3 : w_fs sample_world !! [js "data"; js "ws"] <> None) by (vm_compute; discriminate).
  assert (H4 : pathname (mk_request "GET" "/api/workspace/text/100%.txt" [] None []) =
                 API ++ SLASH :: js "text/100%.txt") by reflexivity.
  assert (H5 : js "text/100%.txt" <> []) by discriminate.
  assert (H6 : hd_error (js "text/100%.txt") <> Some SLASH) by (vm_compute; discriminate).
  assert (H7 : match search_param (mk_request "GET" "/api/workspace/text/100%.txt" [] None [])
                       (js "path") with Some q => q | None => [] end = join_segs [])
    by reflexivity.
  assert (H8 : decodeURIComponent (js "text/100%.txt") = None) by (vm_compute; reflexivity).
  do 8 (split; [assumption|]).
  exact (handle_malformed_name _ _ _ _ sample_world H1 H2 H3 H4 H5 H6 H7 H8).
Defined.

(** X11: [uploadToWorkspace] in a folder [cur] reaches the upload branch
    with the target folder [root/cur], whatever its body. *)
Theorem ui_upload_target (a : OpenClawApp) (rs cs : list jsstr) (ct : option jsstr) (body : list bytes)
    (w : world) :
  plain_segs rs -> plain_segs cs ->
  workspaceCurrentPath a = join_segs cs -> wf_utf16 (join_segs cs) = true ->
  w_fs w !! rs <> None ->
  handleWorkspaceHttpRequest true (dir_path rs) (ui_upload_request a ct body) w =
    upload_op (dir_path (rs ++ cs)) (ui_upload_request a ct body)
      {| w_fs := w_fs w; w_log := w_log w ++ [OpExists (dir_path rs)] |}.
Proof.
  intros Hrs Hcs Hcur Hwc Hr.
  rewrite (handle_file_route rs cs (js "upload")); try assumption;
    [| reflexivity | intros E; discriminate | intros E; discriminate
     | apply (query_path_ui a); [reflexivity | assumption..]].
  assert (Hup : plain_segs [js "upload"]) by (repeat constructor).
  unfold mbind at 1, file_ops.
  change (decodeURIComponent (js "upload")) with (Some (js "upload")). cbv iota beta zeta.
  change (js "upload") with (join_segs [js "upload"]) at 1.
  rewrite path_join_dir_path_segs by (try apply Forall_app; auto).
  rewrite <- app_assoc, is_prefix_dir_path_app. reflexivity.
Qed.

Lemma ui_upload_target_witness :
  plain_segs [js "data"; js "ws"] /\ plain_segs [js "docs"] /\
  workspaceCurrentPath sample_app = join_segs [js "docs"] /\
  wf_utf16 (join_segs [js "docs"]) = true /\
  w_fs sample_world !! [js "data"; js "ws"] <> None /\
  handleWorkspaceHttpRequest true (dir_path [js "data"; js "ws"])
    (ui_upload_request sample_app (Some (js "multipart/form-data; boundary=X"))
       [multipart_body (js "X") [0; 1; 255]]) sample_world =
    upload_op (dir_path ([js "data"; js "ws"] ++ [js "docs"]))
      (ui_upload_request sample_app (Some (js "multipart/form-data; boundary=X"))
         [multipart_body (js "X") [0; 1; 255]])
      {| w_fs := w_fs sample_world;
         w_log := w_log sample_world ++ [OpExists (dir_path [js "data"; js "ws"])] |}.
Proof.
  assert (H1 : plain_segs [js "data"; js "ws"]) by (repeat constructor).
  assert (H2 : plain_segs [js "docs"]) by (repeat constructor).
  assert (H3 : workspaceCurrentPath sample_app = join_segs [js "docs"]) by reflexivity.
  assert (H4 : wf_utf16 (join_segs [js "docs"]) = true) by (vm_compute; reflexivity).
  assert (H5 : w_fs sample_world !! [js "data"; js "ws"] <> None) by (vm_compute; discriminate).
  do 5 (split; [assumption|]).
  exact (ui_upload_target sample_app _ _ _ _ sample_world H1 H2 H3 H4 H5).
Defined.

(** X12: an upload without a [content-type] header, or with one that has
    no [boundary=], answers 400 "Missing boundary" and does nothing else. *)
Theorem upload_missing_boundary (wd : jsstr) (req : request) (w : world) :
  match content_type req with
  | None => True
  | Some c => includes (js "boundary=") c = false
  end ->
  upload_op wd req w = (inr (sendJson 400 (JError (js "Missing boundary"))), w).
Proof.
  intros H. unfold upload_op, boundary_of.
  destruct (content_type req) as [c|]; [|reflexivity].
  unfold split_str. rewrite split_go_absent by (try exact H; discriminate). reflexivity.
Qed.

Lemma upload_missing_boundary_witness :
  includes (js "boundary=") (js "multipart/form-data") = false /\
  upload_op (js "/data/ws")
    (mk_request "POST" "/api/workspace/upload" [] (Some "multipart/form-data") []) sample_world =
    (inr (sendJson 400 (JError (js "Missing boundary"))), sample_world).
Proof.
  assert (H : includes (js "boundary=") (js "multipart/form-data") = false)
    by (vm_compute; reflexivity).
  split; [exact H|].
  exact (upload_missing_boundary _
           (mk_request "POST" "/api/workspace/upload" [] (Some "multipart/form-data") []) _ H).
Defined.

(** X13: [DELETE /api/workspace/text/<e>] is handled by the delete branch
    with the decoded name [text/<name>]: it deletes [root/cur/text/<name>],
    not the file [root/cur/<name>] the text routes read and write. *)
Theorem delete_text_route (rs cs fn : list jsstr) (e : jsstr) (req : request) (w : world) :
  plain_segs rs -> plain_segs cs -> w_fs w !! rs <> None ->
  pathname req = API ++ SLASH :: (js "text/" ++ e) -> method req = DELETE ->
  decodeURIComponent e = Some (join_segs fn) -> plain_segs fn -> fn <> [] ->
  match search_param req (js "path") with Some q => q | None => [] end = join_segs cs ->
  handleWorkspaceHttpRequest true (dir_path rs) req w =
    delete_op (dir_path (rs ++ cs ++ js "text" :: fn))
      {| w_fs := w_fs w; w_log := w_log w ++ [OpExists (dir_path rs)] |}.
Proof.
  intros Hrs Hcs Hr Hp Hm Hd Hfn Hne Hq.
  rewrite (handle_file_route rs cs (js "text/" ++ e) req w); try assumption;
    [| intros E; discriminate | intros E; discriminate].
  rewrite (file_ops_text rs cs fn e req) by assumption.
  rewrite Hm. change (jseqb DELETE DELETE) with true. cbv iota.
  rewrite mbind_some by reflexivity. reflexivity.
Qed.

Lemma delete_text_route_witness :
  plain_segs [js "data"; js "ws"] /\ plain_segs [js "docs"] /\
  w_fs sample_world !! [js "data"; js "ws"] <> None /\
  pathname (mk_request "DELETE" "/api/workspace/text/a.txt" [("path", "docs")] None []) =
    API ++ SLASH :: (js "text/" ++ js "a.txt") /\
  method (mk_request "DELETE" "/api/workspace/text/a.txt" [("path", "docs")] None []) = DELETE /\
  decodeURIComponent (js "a.txt") = Some (join_segs [js "a.txt"]) /\
  plain_segs [js "a.txt"] /\ [js "a.txt"] <> [] /\
  match search_param (mk_request "DELETE" "/api/workspace/text/a.txt" [("path", "docs")] None [])
          (js "path") with Some q => q | None => [] end = join_segs [js "docs"] /\
  handleWorkspaceHttpRequest true (dir_path [js "data"; js "ws"])
    (mk_request "DELETE" "/api/workspace/text/a.txt" [("path", "docs")] None []) sample_world =
    delete_op (dir_path ([js "data"; js "ws"] ++ [js "docs"] ++ js "text" :: [js "a.txt"]))
      {| w_fs := w_fs sample_world;
         w_log := w_log sample_world ++ [OpExists (dir_path [js "data"; js "ws"])] |}.
Proof.
  assert (H1 : plain_segs [js "data"; js "ws"]) by (repeat constructor).
  assert (H2 : plain_segs [js "docs"]) by (repeat constructor).
  assert (H3 : w_fs sample_world !! [js "data"; js "ws"] <> None) by (vm_compute; discriminate).
  assert (H4 : pathname (mk_request "DELETE" "/api/workspace/text/a.txt" [("path", "docs")] None []) =
                 API ++ SLASH :: (js "text/" ++ js "a.txt")) by reflexivity.
  assert (H5 : method (mk_request "DELETE" "/api/workspace/text/a.txt" [("path", "docs")] None [])
                 = DELETE) by reflexivity.
  assert (H6 : decodeURIComponent (js "a.txt") = Some (join_segs [js "a.txt"]))
    by (vm_compute; reflexivity).
  assert (H7 : plain_segs [js "a.txt"]) by (repeat constructor).
  assert (H8 : [js "a.txt"] <> []) by discriminate.
  assert (H9 : match search_param (mk_request "DELETE" "/api/workspace/text/a.txt"
                                     [("path", "docs")] None []) (js "path")
               with Some q => q | None => [] end = join_segs [js "docs"]) by reflexivity.
  do 9 (split; [assumption|]).
  exact (delete_text_route _ _ _ _ _ sample_world H1 H2 H3 H4 H5 H6 H7 H8 H9).
Defined.
